(** * Kafka partition-skew example: producers, balanced producer and consumer

    A shallow embedding of the three Go programs of the repository
    (cmd/producer, cmd/producer_balanced, cmd/consumer) and the properties
    of their key policies, publish path, consumption loop and exit codes. *)

From Stdlib Require Import ZArith List String Ascii Bool Lia Sorted.
Import ListNotations.

Local Open Scope Z_scope.

(* ================================================================== *)
(** * The Go runtime: results, panics, 64-bit integers *)

Module Go.

(** A Go computation either yields a value or panics with a message. *)
Inductive result (A : Type) : Type :=
| Ok (a : A)
| Panic (msg : string).
Arguments Ok {A} a.
Arguments Panic {A} msg.

(** Two's complement wrap-around of [int64] (and of [int] on 64-bit
    targets, and of [time.Duration]). *)
Definition wrap64 (z : Z) : Z := (z + 2 ^ 63) mod 2 ^ 64 - 2 ^ 63.

(** Integer division [a / b]: truncated, panics on a zero divisor. *)
Definition div (a b : Z) : result Z :=
  if b =? 0 then Panic "runtime error: integer divide by zero"
  else Ok (wrap64 (Z.quot a b)).

(** Integer remainder [a % b] with a non-zero constant divisor. *)
Definition rem (a b : Z) : Z := Z.rem a b.

(** Exit status of a process that dies of an unrecovered panic. *)
Definition panic_exit_code : Z := 2.

(** [strings.Split(s, sep)] for a one-character separator. *)
Fixpoint split_on (sep : ascii) (s : string) (cur : string) : list string :=
  match s with
  | EmptyString => [cur]
  | String c rest =>
      if Ascii.eqb c sep then cur :: split_on sep rest EmptyString
      else split_on sep rest (cur ++ String c EmptyString)%string
  end.

Definition Split (s : string) (sep : ascii) : list string :=
  split_on sep s EmptyString.

End Go.

(* ================================================================== *)
(** * package fmt: the fragment of [Sprintf] the programs use *)

Module Fmt.

(** Operands of [Sprintf], with the static Go type they are passed at. *)
Inductive arg : Type :=
| Int (z : Z)
| Int64 (z : Z)
| Str (s : string).

Definition digit_char (d : Z) : ascii := ascii_of_nat (48 + Z.to_nat d).

(** The digit loop of [fmtInteger]: least significant digit first, written
    right to left.  The fuel is the size of the digit buffer. *)
Fixpoint fmt_digits (fuel : nat) (u : Z) (acc : string) : string :=
  match fuel with
  | O => acc
  | S fuel' =>
      if u <? 10 then String (digit_char u) acc
      else fmt_digits fuel' (u / 10) (String (digit_char (u mod 10)) acc)
  end.

(** Twenty digits hold every unsigned 64-bit value. *)
Definition itoa (u : Z) : string := fmt_digits 20 u EmptyString.

Fixpoint repeat_char (c : ascii) (n : nat) : string :=
  match n with
  | O => EmptyString
  | S n' => String c (repeat_char c n')
  end.

Definition pad_left (c : ascii) (width : nat) (s : string) : string :=
  (repeat_char c (width - String.length s) ++ s)%string.

(** [%d] with an optional [0] flag and width: with the flag the width
    becomes the digit precision, less one position for a sign. *)
Definition fmtInteger (zero : bool) (width : option nat) (v : Z) : string :=
  let negative := v <? 0 in
  let digits := itoa (Z.abs v) in
  let prec :=
    match zero, width with
    | true, Some w => if negative then (w - 1)%nat else w
    | _, _ => O
    end in
  let digits := pad_left "0" prec digits in
  let signed := if negative then String "-" digits else digits in
  match width with
  | Some w => pad_left " " w signed
  | None => signed
  end.

Definition fmtString (zero : bool) (width : option nat) (s : string) : string :=
  match width with
  | Some w => pad_left (if zero then "0" else " ")%char w s
  | None => s
  end.

Definition type_name (a : arg) : string :=
  match a with
  | Int _ => "int"
  | Int64 _ => "int64"
  | Str _ => "string"
  end.

Definition plain (a : arg) : string :=
  match a with
  | Int z | Int64 z => fmtInteger false None z
  | Str s => s
  end.

(** A verb applied to an operand of the wrong type: [%!verb(type=value)]. *)
Definition badVerb (verb : ascii) (a : arg) : string :=
  ("%!" ++ String verb ("(" ++ type_name a ++ "=" ++ plain a ++ ")"))%string.

Definition printVerb (verb : ascii) (zero : bool) (width : option nat)
  (a : arg) : string :=
  match a with
  | Int z | Int64 z =>
      if Ascii.eqb verb "d" then fmtInteger zero width z
      else if Ascii.eqb verb "v" then fmtInteger zero width z
      else badVerb verb a
  | Str s =>
      if Ascii.eqb verb "s" then fmtString zero width s
      else if Ascii.eqb verb "v" then fmtString zero width s
      else badVerb verb a
  end.

Fixpoint extra_args (args : list arg) : string :=
  match args with
  | [] => EmptyString
  | [a] => (type_name a ++ "=" ++ plain a)%string
  | a :: rest => (type_name a ++ "=" ++ plain a ++ ", " ++ extra_args rest)%string
  end.

Definition extra (args : list arg) : string :=
  match args with
  | [] => EmptyString
  | _ => ("%!(EXTRA " ++ extra_args args ++ ")")%string
  end.

(** Scanner state of [doPrintf]: copying literal text, or inside a verb
    specification after the [%]. *)
Inductive mode : Type :=
| Lit
| Spec (zero : bool) (width : option nat).

Definition is_digit (c : ascii) : bool :=
  let n := nat_of_ascii c in (48 <=? n)%nat && (n <=? 57)%nat.

Definition digit_val (c : ascii) : nat := (nat_of_ascii c - 48)%nat.

Fixpoint doPrintf (format : string) (m : mode) (args : list arg) : string :=
  match format with
  | EmptyString =>
      match m with
      | Lit => extra args
      | Spec _ _ => "%!(NOVERB)"
      end
  | String c rest =>
      match m with
      | Lit =>
          if Ascii.eqb c "%" then doPrintf rest (Spec false None) args
          else String c (doPrintf rest Lit args)
      | Spec zero width =>
          if Ascii.eqb c "0" && negb zero &&
             match width with None => true | Some _ => false end
          then doPrintf rest (Spec true None) args
          else if is_digit c then
            let w := match width with None => O | Some w => w end in
            doPrintf rest (Spec zero (Some (10 * w + digit_val c)%nat)) args
          else if Ascii.eqb c "%" then String "%" (doPrintf rest Lit args)
          else
            match args with
            | [] =>
                ("%!" ++ String c "(MISSING)" ++ doPrintf rest Lit [])%string
            | a :: args' =>
                (printVerb c zero width a ++ doPrintf rest Lit args')%string
            end
      end
  end.

Definition Sprintf (format : string) (args : list arg) : string :=
  doPrintf format Lit args.

(** Reading a run of decimal digits back (used to state properties of the
    rendered identifiers, not part of the programs). *)
Fixpoint digits_value (s : string) (acc : Z) : Z :=
  match s with
  | EmptyString => acc
  | String c rest => digits_value rest (10 * acc + (Z.of_nat (nat_of_ascii c) - 48))
  end.

End Fmt.

(* ================================================================== *)
(** * package math/rand: a seeded source *)

Module Rand.

(** A source is the infinite sequence of raw values it will deliver and the
    position reached.  Seeding from the clock chooses the sequence. *)
Record t : Type := mk { tape : nat -> Z; pos : nat }.

Definition advance (r : t) : t := mk (tape r) (S (pos r)).

(** The value the next call of [Intn n] returns, for [n > 0]. *)
Definition peek (n : Z) (r : t) : Z := tape r (pos r) mod n.

(** [r.Intn(n)]: a value of [[0,n)]; panics when [n <= 0]. *)
Definition Intn (n : Z) (r : t) : Go.result (Z * t) :=
  if n <=? 0 then Go.Panic "invalid argument to Intn"
  else Go.Ok (peek n r, advance r).

(** Computations that draw from the source and may panic. *)
Definition M (A : Type) : Type := t -> Go.result (A * t).

Definition ret {A} (a : A) : M A := fun r => Go.Ok (a, r).

Definition bind {A B} (m : M A) (k : A -> M B) : M B :=
  fun r =>
    match m r with
    | Go.Ok (a, r') => k a r'
    | Go.Panic msg => Go.Panic msg
    end.

Definition panic {A} (msg : string) : M A := fun _ => Go.Panic msg.

(** A source that delivers the given raw values and then [rest] forever. *)
Definition of_list (raw : list Z) (rest : Z) : t :=
  mk (fun n => nth n raw rest) O.

End Rand.

Declare Scope rand_scope.
Delimit Scope rand_scope with rand.
Notation "x <- m ;; k" := (Rand.bind m (fun x => k))
  (at level 61, m at next level, right associativity) : rand_scope.

(* ================================================================== *)
(** * The transport (github.com/IBM/sarama) as the programs see it *)

Module Sarama.

(** [sarama.ProducerMessage] with string-encoded key and value. *)
Record ProducerMessage : Type := mkProducerMessage {
  Topic : string;
  Key : string;
  Value : string
}.

(** [sarama.ConsumerMessage]: the fields the consumer reads. *)
Record ConsumerMessage : Type := mkConsumerMessage {
  MsgKey : string;
  MsgValue : string;
  MsgPartition : Z;
  Offset : Z
}.

(** The channel returned by [AsyncProducer.Input()]: a bounded FIFO that
    the transport's own workers empty. *)
Record input : Type := mkInput {
  capacity : nat;
  buffered : list ProducerMessage
}.

Definition full (ch : input) : bool :=
  (capacity ch <=? List.length (buffered ch))%nat.

Definition enqueue (msg : ProducerMessage) (ch : input) : input :=
  mkInput (capacity ch) (buffered ch ++ [msg]).

(** The transport takes [n] records off the front of the channel. *)
Definition dequeue (n : nat) (ch : input) : input :=
  mkInput (capacity ch) (skipn n (buffered ch)).

End Sarama.

(* ================================================================== *)
(** * What the two producer programs share *)

Module Pipeline.
Import Sarama.

(** [gameEvent] (declared identically in both producers). *)
Record gameEvent : Type := mkGameEvent {
  ID : Z;
  PlayerID : string;
  GameID : string;
  EventType : string;
  Amount : Z;
  TableID : string;
  TS : Z
}.

Definition dq : string := String (ascii_of_nat 34) EmptyString.

(** A double-quoted piece of a format string. *)
Definition q (s : string) : string := (dq ++ s ++ dq)%string.

(** The format of the JSON value, the same literal in both programs. *)
Definition payload_format : string :=
  ("{" ++ q "id" ++ ":%d," ++ q "player_id" ++ ":" ++ q "%s" ++ ","
       ++ q "game_id" ++ ":" ++ q "%s" ++ ","
       ++ q "event_type" ++ ":" ++ q "%s" ++ ","
       ++ q "amount" ++ ":%d," ++ q "table_id" ++ ":" ++ q "%s" ++ ","
       ++ q "ts" ++ ":%d}")%string.

Definition encode (ev : gameEvent) : string :=
  Fmt.Sprintf payload_format
    [Fmt.Int64 (ID ev); Fmt.Str (PlayerID ev); Fmt.Str (GameID ev);
     Fmt.Str (EventType ev); Fmt.Int (Amount ev); Fmt.Str (TableID ev);
     Fmt.Int64 (TS ev)].

Definition vip : string := "player-000001".

Definition event_types : list string :=
  ["bet_placed"; "hand_finished"; "chips_added"]%string.

(** [pick] returns a random string from the provided slice. *)
Definition pick (ss : list string) : Rand.M string :=
  (n <- Rand.Intn (Z.of_nat (List.length ss)) ;;
   match nth_error ss (Z.to_nat n) with
   | Some s => Rand.ret s
   | None => Rand.panic "runtime error: index out of range"
   end)%rand.

(** [time.Second], in nanoseconds. *)
Definition Second : Z := 1000000000.

(** One firing of the ticker as the generation task sees it: the wall clock
    in milliseconds, and how many records the transport has taken off the
    input channel since the previous firing. *)
Record tick : Type := mkTick { now : Z; drained : nat }.

Inductive level : Type := INFO | ERROR.

(** Observable steps of a producer process, in program order. *)
Inductive event : Type :=
| NewAsyncProducer (brokers : list string)
| Log (l : level) (msg : string)
| NewTicker (d : Z)
| GoGeneration
| TickerFired
| Offered (ev : gameEvent) (msg : ProducerMessage) (accepted : bool)
| Signal
| Close
| TickerStop.

(** How [run] ends: it returns (an error or nil), or the process dies of a
    panic. *)
Inductive outcome : Type :=
| Return (err : option string)
| Crash (msg : string).

(** Everything outside the program that a run depends on. *)
Record world : Type := mkWorld {
  connect_error : option string;
  seed : Rand.t;
  input_capacity : nat;
  ticks : list tick;
  close_in_time : bool
}.

(** The [select] with a [default] branch around the send: the send is taken
    when the channel can accept the record at once, and only then is the
    sequence counter advanced. *)
Definition select_send (ch : input) (msg : ProducerMessage) (i : Z)
  : bool * input * Z :=
  if full ch then (false, ch, i)
  else (true, enqueue msg ch, Go.wrap64 (i + 1)).

Section Generation.

(** The part of the loop body that differs between the two programs: it
    builds the event and the record from the counter and the clock. *)
Variable build : Z -> Z -> Rand.M (gameEvent * ProducerMessage).

(** One pass of the [for] loop after [<-ticker.C]. *)
Definition iteration (t : tick) (i : Z) (r : Rand.t) (ch : input)
  : Go.result (gameEvent * ProducerMessage * bool * (Z * Rand.t * input)) :=
  let ch := dequeue (drained t) ch in
  match build i (now t) r with
  | Go.Panic msg => Go.Panic msg
  | Go.Ok ((ev, msg), r') =>
      let '(accepted, ch', i') := select_send ch msg i in
      Go.Ok (ev, msg, accepted, (i', r', ch'))
  end.

(** The generation goroutine over the firings that precede the signal.  A
    panic inside it ends the trace and is reported. *)
Fixpoint generation (ts : list tick) (i : Z) (r : Rand.t) (ch : input)
  : list event * option string :=
  match ts with
  | [] => ([], None)
  | t :: rest =>
      match iteration t i r ch with
      | Go.Panic msg => ([TickerFired], Some msg)
      | Go.Ok (ev, msg, accepted, (i', r', ch')) =>
          let (tr, crashed) := generation rest i' r' ch' in
          (TickerFired :: Offered ev msg accepted :: tr, crashed)
      end
  end.

(** The signal-driven shutdown at the end of [run]. *)
Definition shutdown (w : world) : list event :=
  [Signal; Log INFO "shutdown started"; Close;
   (if close_in_time w then Log INFO "producer closed cleanly"
    else Log ERROR "producer close timed out");
   TickerStop; Close; Log INFO "completed"].

(** The body shared by the two [run] functions: connect, announce the
    start, create the ticker, launch the generation task, wait for the
    signal, shut down.  Deferred calls run on every way out of [run],
    a panic of [run] itself included. *)
Definition run_with (started : string) (kafkaBrokers : string) (rate : Z)
  (w : world) : list event * outcome :=
  let brokers := Go.Split kafkaBrokers "," in
  match connect_error w with
  | Some err =>
      ([NewAsyncProducer brokers; Log INFO "completed"],
       Return (Some ("failed to create kafka producer: " ++ err)%string))
  | None =>
      let up := [NewAsyncProducer brokers; Log INFO started] in
      let unwind := [Close; Log INFO "completed"] in
      match Go.div Second rate with
      | Go.Panic msg => (up ++ unwind, Crash msg)
      | Go.Ok d =>
          if d <=? 0
          then (up ++ unwind, Crash "non-positive interval for NewTicker")
          else
            let (tr, crashed) :=
              generation (ticks w) 0 (seed w) (mkInput (input_capacity w) []) in
            match crashed with
            | Some msg => (up ++ NewTicker d :: GoGeneration :: tr, Crash msg)
            | None =>
                (up ++ NewTicker d :: GoGeneration :: tr ++ shutdown w,
                 Return None)
            end
      end
  end.

End Generation.

(** [main] after flag parsing: exit status 1 on an error from [run], the
    runtime's status on a panic, 0 otherwise. *)
Definition exit_of (res : list event * outcome) : list event * Z :=
  match res with
  | (tr, Return None) => (tr, 0)
  | (tr, Return (Some _)) => (tr ++ [Log ERROR "error"], 1)
  | (tr, Crash _) => (tr, Go.panic_exit_code)
  end.

(** Projections of a trace. *)
Fixpoint offers (tr : list event) : list (gameEvent * bool) :=
  match tr with
  | [] => []
  | Offered ev _ accepted :: rest => (ev, accepted) :: offers rest
  | _ :: rest => offers rest
  end.

Definition accepted_ids (tr : list event) : list Z :=
  map (fun o => ID (fst o)) (filter snd (offers tr)).

(** The offers carry the value of the sequence counter, which starts at
    [i] and moves on after an accepted offer only. *)
Fixpoint follows_counter (i : Z) (os : list (gameEvent * bool)) : Prop :=
  match os with
  | [] => True
  | (ev, accepted) :: rest =>
      ID ev = i
      /\ follows_counter (if accepted then Go.wrap64 (i + 1) else i) rest
  end.

(** The wire payload as the interface describes it: a flat record of named
    integer and string fields, in order. *)
Inductive field_value : Type :=
| Integer (z : Z)
| Text (s : string).

Definition render_field (f : string * field_value) : string :=
  match snd f with
  | Integer z => (q (fst f) ++ ":" ++ Fmt.fmtInteger false None z)%string
  | Text s => (q (fst f) ++ ":" ++ q s)%string
  end.

Fixpoint join_fields (fs : list (string * field_value)) : string :=
  match fs with
  | [] => EmptyString
  | [f] => render_field f
  | f :: rest => (render_field f ++ "," ++ join_fields rest)%string
  end.

Definition wire_record (fs : list (string * field_value)) : string :=
  ("{" ++ join_fields fs ++ "}")%string.

(** The seven fields of the payload, named and ordered as the interface
    lists them. *)
Definition wire_fields (ev : gameEvent) : list (string * field_value) :=
  [("id"%string, Integer (ID ev)); ("player_id"%string, Text (PlayerID ev));
   ("game_id"%string, Text (GameID ev));
   ("event_type"%string, Text (EventType ev));
   ("amount"%string, Integer (Amount ev));
   ("table_id"%string, Text (TableID ev)); ("ts"%string, Integer (TS ev))].

(** A record on the wire: the value is the flat record of the event's seven
    fields and the amount lies in [[10,210)]. *)
Definition well_formed (ev : gameEvent) (msg : ProducerMessage) : Prop :=
  Value msg = wire_record (wire_fields ev) /\ 10 <= Amount ev < 210.

(** Of the hundred values a draw from [[0,100)] can take, how many lie
    below a percentage. *)
Definition draws_below (percent : Z) : nat :=
  List.length (filter (fun d => d <? percent) (map Z.of_nat (seq 0 100))).

End Pipeline.

(* ================================================================== *)
(** * cmd/producer: the producer that creates the skew *)

Module Producer.
Import Sarama Pipeline.

(** Command line options. *)
Record options : Type := mkOptions {
  KafkaBrokers : string;
  OptTopic : string;
  Rate : Z;
  SkewPercent : Z
}.

(** The loop body up to the record handed to the transport: pick a player,
    let the VIP take [skewPercent]% of the traffic, build the event, key
    it by the player identifier. *)
Definition build (topic : string) (skewPercent : Z) (i : Z) (now : Z)
  : Rand.M (gameEvent * ProducerMessage) :=
  (n <- Rand.Intn 200000 ;;
   let playerID := Fmt.Sprintf "player-%06d" [Fmt.Int n] in
   d <- Rand.Intn 100 ;;
   let playerID := if d <? skewPercent then "player-000001"%string
                   else playerID in
   g <- Rand.Intn 50 ;;
   et <- pick event_types ;;
   a <- Rand.Intn 200 ;;
   tb <- Rand.Intn 100 ;;
   let ev := mkGameEvent i playerID
               (Fmt.Sprintf "game-%d" [Fmt.Int g]) et (10 + a)
               (Fmt.Sprintf "table-%d" [Fmt.Int tb]) now in
   let key := playerID in
   let val := encode ev in
   Rand.ret (ev, mkProducerMessage topic key val))%rand.

(** [run] starts the producer. *)
Definition run (kafkaBrokers topic : string) (rate skewPercent : Z)
  (w : world) : list event * outcome :=
  run_with (build topic skewPercent) "producer started" kafkaBrokers rate w.

(** [main]; [None] stands for a command line the flag parser refused. *)
Definition main (parsed : option options) (w : world) : list event * Z :=
  match parsed with
  | None => ([], 1)
  | Some opts =>
      exit_of (run (KafkaBrokers opts) (OptTopic opts) (Rate opts)
                 (SkewPercent opts) w)
  end.

(** The key policy as the specification words it: the VIP identifier is
    emitted exactly when the draw from [[0,100)] is below [skewPercent]. *)
Definition vip_exactly_when_drawn (skewPercent : Z) (r : Rand.t) : Prop :=
  forall topic i now ev msg r',
    build topic skewPercent i now r = Go.Ok ((ev, msg), r') ->
    (PlayerID ev = vip <-> Rand.peek 100 (Rand.advance r) < skewPercent).

End Producer.

(* ================================================================== *)
(** * cmd/producer_balanced: the producer that shards the hot key *)

Module ProducerBalanced.
Import Sarama Pipeline.

(** Command line options. *)
Record options : Type := mkOptions {
  KafkaBrokers : string;
  OptTopic : string;
  Rate : Z;
  Shards : Z
}.

(** The loop body up to the record handed to the transport: the VIP
    dominates the traffic, the key carries a shard suffix. *)
Definition build (topic : string) (shards : Z) (i : Z) (now : Z)
  : Rand.M (gameEvent * ProducerMessage) :=
  (d <- Rand.Intn 100 ;;
   playerID <- (if 95 <=? d
                then (n <- Rand.Intn 200000 ;;
                      Rand.ret (Fmt.Sprintf "player-%06d" [Fmt.Int n]))
                else Rand.ret "player-000001"%string) ;;
   g <- Rand.Intn 50 ;;
   et <- pick event_types ;;
   a <- Rand.Intn 200 ;;
   tb <- Rand.Intn 100 ;;
   let ev := mkGameEvent i playerID
               (Fmt.Sprintf "game-%d" [Fmt.Int g]) et (10 + a)
               (Fmt.Sprintf "table-%d" [Fmt.Int tb]) now in
   shard <- Rand.Intn shards ;;
   let key := Fmt.Sprintf "%s#shard=%d" [Fmt.Str (PlayerID ev); Fmt.Int shard] in
   let val := encode ev in
   Rand.ret (ev, mkProducerMessage topic key val))%rand.

(** [run] starts the balanced producer. *)
Definition run (kafkaBrokers topic : string) (rate shards : Z)
  (w : world) : list event * outcome :=
  run_with (build topic shards) "balanced producer started" kafkaBrokers rate w.

(** [main]; [None] stands for a command line the flag parser refused. *)
Definition main (parsed : option options) (w : world) : list event * Z :=
  match parsed with
  | None => ([], 1)
  | Some opts =>
      exit_of (run (KafkaBrokers opts) (OptTopic opts) (Rate opts)
                 (Shards opts) w)
  end.

(** The identifier choice as the specification words it: when the VIP is
    not selected, the identifier is not the VIP's. *)
Definition non_vip_otherwise (shards : Z) (r : Rand.t) : Prop :=
  forall topic i now ev msg r',
    build topic shards i now r = Go.Ok ((ev, msg), r') ->
    95 <= Rand.peek 100 r -> PlayerID ev <> vip.


End ProducerBalanced.

(* ================================================================== *)
(** * cmd/consumer *)

Module Consumer.
Import Sarama.

(** Command line options. *)
Record options : Type := mkOptions {
  KafkaBrokers : string;
  OptTopic : string;
  Group : string;
  WorkMs : Z
}.

(** [time.Millisecond], in nanoseconds. *)
Definition Millisecond : Z := 1000000.

(** [handler]: the simulated work per message (the logger is the trace). *)
Record handler : Type := mkHandler { work : Z }.

Inductive level : Type := INFO | ERROR.

(** Observable steps of the consumer, in program order. *)
Inductive event : Type :=
| NewConsumerGroup (brokers : list string) (group : string)
| Log (l : level) (msg : string)
| Consume (topics : list string) (h : handler)
| Slept (d : Z)
| Sampled (partition : Z) (offset : Z) (key : string)
| Marked (msg : ConsumerMessage)
| Signal
| Close.

(** [Setup] and [Cleanup] are no-ops. *)
Definition Setup (h : handler) : option string := None.
Definition Cleanup (h : handler) : option string := None.

(** The body of the [range] loop of [ConsumeClaim] for one message. *)
Definition process (h : handler) (p : Z) (msg : ConsumerMessage) : list event :=
  Slept (work h)
  :: (if Go.rem (Offset msg) 500 =? 0
      then [Sampled p (Offset msg) (MsgKey msg)] else [])
  ++ [Marked msg].

(** [ConsumeClaim] over the messages the claim's channel delivers before it
    is closed; it returns nil. *)
Fixpoint ConsumeClaim_loop (h : handler) (p : Z) (msgs : list ConsumerMessage)
  : list event :=
  match msgs with
  | [] => []
  | msg :: rest => process h p msg ++ ConsumeClaim_loop h p rest
  end.

Definition ConsumeClaim (h : handler) (p : Z) (msgs : list ConsumerMessage)
  : list event * option string :=
  (ConsumeClaim_loop h p msgs, None).

(** What the [select] of [run] receives first: a value on [consumeErrors]
    (whatever [client.Consume] returned, nil included), or a signal, after
    which the client is closed. *)
Inductive wakeup : Type :=
| ConsumeReturned (err : option string)
| Signalled (close_error : option string).

Record world : Type := mkWorld {
  group_error : option string;
  first : wakeup
}.

(** [run] starts the consumer. *)
Definition run (kafkaBrokers topic group : string) (workMs : Z) (w : world)
  : list event * option string :=
  let brokers := Go.Split kafkaBrokers "," in
  match group_error w with
  | Some err =>
      ([NewConsumerGroup brokers group; Log INFO "completed"],
       Some ("failed to create kafka consumer group: " ++ err)%string)
  | None =>
      let h := mkHandler (Go.wrap64 (workMs * Millisecond)) in
      let up := [NewConsumerGroup brokers group; Log INFO "consumer started";
                 Consume [topic] h] in
      match first w with
      | ConsumeReturned err =>
          (up ++ [Log ERROR "consume error"; Close; Log INFO "completed"], None)
      | Signalled close_error =>
          (up ++ [Signal; Log INFO "shutdown started"; Close]
              ++ match close_error with
                 | Some _ => [Log ERROR "failed to close consumer"]
                 | None => []
                 end
              ++ [Close; Log INFO "completed"], None)
      end
  end.

(** [main]; [None] stands for a command line the flag parser refused. *)
Definition main (parsed : option options) (w : world) : list event * Z :=
  match parsed with
  | None => ([], 1)
  | Some opts =>
      match run (KafkaBrokers opts) (OptTopic opts) (Group opts) (WorkMs opts) w with
      | (tr, Some _) => (tr ++ [Log ERROR "error"], 1)
      | (tr, None) => (tr, 0)
      end
  end.

(** Projections of a trace. *)
Definition is_Slept (e : event) : bool :=
  match e with Slept _ => true | _ => false end.

Definition is_Marked (e : event) : bool :=
  match e with Marked _ => true | _ => false end.

Fixpoint marked_offsets (tr : list event) : list Z :=
  match tr with
  | [] => []
  | Marked msg :: rest => Offset msg :: marked_offsets rest
  | _ :: rest => marked_offsets rest
  end.

Fixpoint samples (tr : list event) : list (Z * Z * string) :=
  match tr with
  | [] => []
  | Sampled p o k :: rest => (p, o, k) :: samples rest
  | _ :: rest => samples rest
  end.

(** The sampling interval, a literal of [ConsumeClaim]. *)
Definition sampling_interval : Z := 500.

End Consumer.

(* ================================================================== *)
(** * Readers and measures used to state further properties *)

Module Strings.

(** [strings.Join(ss, sep)], the inverse of [strings.Split]. *)
Fixpoint Join (ss : list string) (sep : string) : string :=
  match ss with
  | [] => EmptyString
  | [s] => s
  | s :: rest => (s ++ sep ++ Join rest sep)%string
  end.

(** Whether a character occurs in a string. *)
Fixpoint contains (c : ascii) (s : string) : bool :=
  match s with
  | EmptyString => false
  | String c' rest => Ascii.eqb c' c || contains c rest
  end.

(** How often a character occurs in a string. *)
Fixpoint occurrences (c : ascii) (s : string) : nat :=
  match s with
  | EmptyString => O
  | String c' rest =>
      if Ascii.eqb c' c then S (occurrences c rest) else occurrences c rest
  end.

(** Whether every character is a decimal digit. *)
Fixpoint all_digits (s : string) : bool :=
  match s with
  | EmptyString => true
  | String c rest => Fmt.is_digit c && all_digits rest
  end.

(** Reading a signed decimal numeral back. *)
Definition int_value (s : string) : Z :=
  match s with
  | String c rest =>
      if Ascii.eqb c "-" then - Fmt.digits_value rest 0
      else Fmt.digits_value s 0
  | EmptyString => 0
  end.

End Strings.

Module Trace.
Import Sarama Pipeline.

Definition is_Close (e : event) : bool :=
  match e with Close => true | _ => false end.


(** The records the transport took off the channel over a list of
    firings. *)
Fixpoint total_drained (ts : list tick) : nat :=
  match ts with
  | [] => O
  | t :: rest => (drained t + total_drained rest)%nat
  end.

(** The shape every generated event has: an event type of the closed set,
    game and table numbers of their ranges, a six-digit player number. *)
Definition catalogued (ev : gameEvent) : Prop :=
  In (EventType ev) event_types
  /\ (exists g, 0 <= g < 50 /\ GameID ev = ("game-" ++ Fmt.itoa g)%string)
  /\ (exists t, 0 <= t < 100 /\ TableID ev = ("table-" ++ Fmt.itoa t)%string)
  /\ (exists n, 0 <= n < 200000
               /\ PlayerID ev
                  = ("player-" ++ Fmt.pad_left "0" 6 (Fmt.itoa n))%string)
  /\ String.length (PlayerID ev) = 13%nat.

End Trace.

Module ConsumerTrace.
Import Sarama Consumer.

Definition is_Close (e : event) : bool :=
  match e with Close => true | _ => false end.


End ConsumerTrace.

(** Concrete inputs: the defaults of the command line and a short run. *)
Module Scenario.
Import Sarama Pipeline.

Definition source : Rand.t := Rand.of_list [424242; 96; 7; 1; 150; 42; 9] 3.

Definition three_ticks : list tick :=
  [mkTick 1700000000000 0; mkTick 1700000000002 0; mkTick 1700000000005 1].

Definition world_ok : world := mkWorld None source 2 three_ticks true.


Definition producer_opts : Producer.options :=
  Producer.mkOptions "localhost:29092,localhost:29093" "game-events" 400 95.

Definition balanced_opts : ProducerBalanced.options :=
  ProducerBalanced.mkOptions "localhost:29092" "game-events" 400 16.

Definition consumer_opts : Consumer.options :=
  Consumer.mkOptions "localhost:29092" "game-events" "games-analytics" 2.

Definition records : list ConsumerMessage :=
  [mkConsumerMessage "player-000001" "v" 2 499;
   mkConsumerMessage "player-000001" "v" 2 500;
   mkConsumerMessage "player-000777" "v" 2 501;
   mkConsumerMessage "player-000001" "v" 2 1000].

End Scenario.

(* ================================================================== *)
(** * Facts about strings and the rendering of integers *)

Section StringFacts.

Local Open Scope string_scope.

Lemma append_nil_r (s : string) : s ++ EmptyString = s.
Proof. induction s as [|c s IH]; simpl; [reflexivity | now rewrite IH]. Qed.

Lemma append_assoc (s1 s2 s3 : string) : (s1 ++ s2) ++ s3 = s1 ++ (s2 ++ s3).
Proof. induction s1 as [|c s1 IH]; simpl; [reflexivity | now rewrite IH]. Qed.

Lemma length_append (s1 s2 : string) :
  String.length (s1 ++ s2) = (String.length s1 + String.length s2)%nat.
Proof. induction s1 as [|c s1 IH]; simpl; [reflexivity | now rewrite IH]. Qed.

Lemma length_repeat_char (c : ascii) (n : nat) :
  String.length (Fmt.repeat_char c n) = n.
Proof. induction n as [|n IH]; simpl; [reflexivity | now rewrite IH]. Qed.

Lemma pad_left_short (c : ascii) (w : nat) (s : string) :
  (w <= String.length s)%nat -> Fmt.pad_left c w s = s.
Proof.
  intros Hle. unfold Fmt.pad_left.
  replace (w - String.length s)%nat with O by lia. reflexivity.
Qed.

Lemma length_pad_left (c : ascii) (w : nat) (s : string) :
  String.length (Fmt.pad_left c w s) = Nat.max w (String.length s).
Proof.
  unfold Fmt.pad_left. rewrite length_append, length_repeat_char. lia.
Qed.

End StringFacts.

Section DigitFacts.

Lemma digit_char_value (d : Z) :
  0 <= d < 10 -> Z.of_nat (nat_of_ascii (Fmt.digit_char d)) - 48 = d.
Proof.
  intros Hd. unfold Fmt.digit_char.
  rewrite nat_ascii_embedding by lia. lia.
Qed.

Lemma digits_value_app (s1 s2 : string) (a : Z) :
  Fmt.digits_value (s1 ++ s2) a = Fmt.digits_value s2 (Fmt.digits_value s1 a).
Proof.
  revert a. induction s1 as [|c s1 IH]; intros a; simpl; [reflexivity | apply IH].
Qed.

Lemma digits_value_zeros (n : nat) (s : string) :
  Fmt.digits_value (Fmt.repeat_char "0" n ++ s) 0 = Fmt.digits_value s 0.
Proof.
  induction n as [|n IH]; simpl; [reflexivity | exact IH].
Qed.

(** The digit loop writes, in front of what is already in the buffer, a
    run of digits whose value is the number rendered. *)
Lemma fmt_digits_spec (fuel : nat) :
  forall u acc, 0 <= u < 10 ^ Z.of_nat fuel ->
    exists ds, Fmt.fmt_digits fuel u acc = (ds ++ acc)%string
               /\ Fmt.digits_value ds 0 = u.
Proof.
  induction fuel as [|fuel IH]; intros u acc Hu.
  - exists EmptyString. simpl in *. split; [reflexivity | lia].
  - cbn [Fmt.fmt_digits]. destruct (u <? 10) eqn:Hlt.
    + apply Z.ltb_lt in Hlt.
      exists (String (Fmt.digit_char u) EmptyString). split; [reflexivity|].
      cbn [Fmt.digits_value]. rewrite digit_char_value by lia. lia.
    + apply Z.ltb_ge in Hlt.
      assert (Hq : 0 <= u / 10 < 10 ^ Z.of_nat fuel).
      { split; [apply Z.div_pos; lia|].
        apply Z.div_lt_upper_bound; [lia|].
        rewrite Nat2Z.inj_succ, Z.pow_succ_r in Hu by lia. lia. }
      destruct (IH (u / 10) (String (Fmt.digit_char (u mod 10)) acc) Hq)
        as [ds [Heq Hval]].
      exists (ds ++ String (Fmt.digit_char (u mod 10)) EmptyString)%string.
      split.
      * rewrite Heq, append_assoc. reflexivity.
      * rewrite digits_value_app, Hval. cbn [Fmt.digits_value].
        pose proof (Z.mod_pos_bound u 10 ltac:(lia)) as Hm.
        rewrite digit_char_value by lia.
        pose proof (Z.div_mod u 10 ltac:(lia)). lia.
Qed.

Lemma itoa_value (u : Z) :
  0 <= u < 10 ^ 20 -> Fmt.digits_value (Fmt.itoa u) 0 = u.
Proof.
  intros Hu. unfold Fmt.itoa.
  destruct (fmt_digits_spec 20 u EmptyString Hu) as [ds [Heq Hval]].
  rewrite Heq, append_nil_r. exact Hval.
Qed.

(** Without flag or width, [%d] of a non-negative number is its digits. *)
Lemma fmtInteger_plain (v : Z) :
  0 <= v -> Fmt.fmtInteger false None v = Fmt.itoa v.
Proof.
  intros Hv. unfold Fmt.fmtInteger.
  destruct (v <? 0) eqn:Hneg; [apply Z.ltb_lt in Hneg; lia|].
  rewrite Z.abs_eq by lia. reflexivity.
Qed.

(** [%06d] of a non-negative number: zeros in front of the digits. *)
Lemma fmtInteger_zero6 (v : Z) :
  0 <= v ->
  Fmt.fmtInteger true (Some 6%nat) v = Fmt.pad_left "0" 6 (Fmt.itoa v).
Proof.
  intros Hv. unfold Fmt.fmtInteger.
  destruct (v <? 0) eqn:Hneg; [apply Z.ltb_lt in Hneg; lia|].
  rewrite Z.abs_eq by lia.
  apply pad_left_short. rewrite length_pad_left. lia.
Qed.

(** The player identifier of draw [n]. *)
Lemma player_id_render (n : Z) :
  0 <= n ->
  Fmt.Sprintf "player-%06d" [Fmt.Int n]
  = ("player-" ++ Fmt.pad_left "0" 6 (Fmt.itoa n))%string.
Proof.
  intros Hn. unfold Fmt.Sprintf.
  with_strategy opaque [Fmt.fmtInteger] simpl.
  rewrite fmtInteger_zero6 by exact Hn. rewrite append_nil_r. reflexivity.
Qed.

(** Only draw 1 renders as the VIP identifier. *)
Lemma player_id_is_vip (n : Z) :
  0 <= n < 200000 ->
  (Fmt.Sprintf "player-%06d" [Fmt.Int n] = Pipeline.vip <-> n = 1).
Proof.
  intros Hn. split.
  - intros Heq. rewrite player_id_render in Heq by lia.
    unfold Pipeline.vip in Heq. cbn [append] in Heq.
    assert (Hd : Fmt.pad_left "0" 6 (Fmt.itoa n) = "000001"%string)
      by congruence.
    apply (f_equal (fun s => Fmt.digits_value s 0)) in Hd.
    unfold Fmt.pad_left in Hd.
    rewrite digits_value_zeros, itoa_value in Hd by lia.
    exact Hd.
  - intros ->. reflexivity.
Qed.

End DigitFacts.

(* ================================================================== *)
(** * The random source and the two loop bodies *)

Section DrawFacts.
Import Sarama Pipeline.

Lemma peek_range (n : Z) (r : Rand.t) : 0 < n -> 0 <= Rand.peek n r < n.
Proof. intros Hn. unfold Rand.peek. apply Z.mod_pos_bound. exact Hn. Qed.

Lemma Intn_pos (n : Z) (r : Rand.t) :
  0 < n -> Rand.Intn n r = Go.Ok (Rand.peek n r, Rand.advance r).
Proof.
  intros Hn. unfold Rand.Intn.
  destruct (n <=? 0) eqn:Hle; [apply Z.leb_le in Hle; lia | reflexivity].
Qed.

Lemma Intn_nonpos (n : Z) (r : Rand.t) :
  n <= 0 -> Rand.Intn n r = Go.Panic "invalid argument to Intn".
Proof.
  intros Hn. unfold Rand.Intn.
  destruct (n <=? 0) eqn:Hle; [reflexivity | apply Z.leb_gt in Hle; lia].
Qed.

Lemma bind_Intn_pos {B} (n : Z) (k : Z -> Rand.M B) (r : Rand.t) :
  0 < n ->
  Rand.bind (Rand.Intn n) k r = k (Rand.peek n r) (Rand.advance r).
Proof. intros Hn. unfold Rand.bind. rewrite Intn_pos by exact Hn. reflexivity. Qed.

Lemma pick_event_types (r : Rand.t) :
  exists et, pick event_types r = Go.Ok (et, Rand.advance r)
             /\ In et event_types.
Proof.
  unfold pick. cbn [event_types List.length Z.of_nat Pos.of_succ_nat Pos.succ].
  rewrite bind_Intn_pos by lia.
  pose proof (peek_range 3 r ltac:(lia)) as Hp.
  assert (Hc : Rand.peek 3 r = 0 \/ Rand.peek 3 r = 1 \/ Rand.peek 3 r = 2) by lia.
  destruct Hc as [-> | [-> | ->]]; cbn; eexists; (split; [reflexivity|]);
    cbn; tauto.
Qed.

Lemma bind_pick_event_types {B} (k : string -> Rand.M B) (r : Rand.t) :
  exists et, In et event_types
             /\ Rand.bind (pick event_types) k r = k et (Rand.advance r).
Proof.
  destruct (pick_event_types r) as [et [Heq Hin]].
  exists et. split; [exact Hin|]. unfold Rand.bind. rewrite Heq. reflexivity.
Qed.

End DrawFacts.

(** One step through a loop body: a draw with a positive bound, or the
    choice of the event type. *)
Ltac draw :=
  first
    [ rewrite bind_Intn_pos by lia
    | match goal with
      | |- context [Rand.bind (Pipeline.pick Pipeline.event_types) ?k ?r0] =>
          let et := fresh "et" in
          let Hin := fresh "Hin" in
          destruct (bind_pick_event_types k r0) as [et [Hin ->]]
      end ].

Section BuildFacts.
Import Sarama Pipeline.

(** The event and record one pass of the skewed producer builds. *)
Lemma producer_build_spec (topic : string) (skewPercent i now : Z) (r : Rand.t) :
  exists g et a tb r',
    let pid := if Rand.peek 100 (Rand.advance r) <? skewPercent then vip
               else Fmt.Sprintf "player-%06d" [Fmt.Int (Rand.peek 200000 r)] in
    let ev := mkGameEvent i pid (Fmt.Sprintf "game-%d" [Fmt.Int g]) et (10 + a)
                (Fmt.Sprintf "table-%d" [Fmt.Int tb]) now in
    0 <= g < 50 /\ In et event_types /\ 0 <= a < 200 /\ 0 <= tb < 100 /\
    Producer.build topic skewPercent i now r
    = Go.Ok ((ev, mkProducerMessage topic pid (encode ev)), r').
Proof.
  unfold Producer.build. repeat draw.
  eexists _, et, _, _, _. cbv zeta.
  repeat split; try exact Hin; try reflexivity; apply peek_range; lia.
Qed.

(** The event and record one pass of the balanced producer builds, for a
    positive shard count. *)
Lemma balanced_build_spec (topic : string) (shards i now : Z) (r : Rand.t) :
  0 < shards ->
  exists g et a tb shard r',
    let pid := if 95 <=? Rand.peek 100 r
               then Fmt.Sprintf "player-%06d"
                      [Fmt.Int (Rand.peek 200000 (Rand.advance r))]
               else vip in
    let ev := mkGameEvent i pid (Fmt.Sprintf "game-%d" [Fmt.Int g]) et (10 + a)
                (Fmt.Sprintf "table-%d" [Fmt.Int tb]) now in
    0 <= g < 50 /\ In et event_types /\ 0 <= a < 200 /\ 0 <= tb < 100 /\
    0 <= shard < shards /\
    ProducerBalanced.build topic shards i now r
    = Go.Ok ((ev, mkProducerMessage topic
                    (Fmt.Sprintf "%s#shard=%d" [Fmt.Str pid; Fmt.Int shard])
                    (encode ev)), r').
Proof.
  intros Hs. unfold ProducerBalanced.build. draw.
  destruct (95 <=? Rand.peek 100 r) eqn:Hd.
  - unfold Rand.bind at 1. unfold Rand.bind at 1.
    rewrite Intn_pos by lia. cbn [Rand.ret].
    repeat draw.
    eexists _, et, _, _, _, _. cbv zeta.
    repeat split; try exact Hin; try reflexivity; apply peek_range; lia.
  - unfold Rand.bind at 1. cbn [Rand.ret].
    repeat draw.
    eexists _, et, _, _, _, _. cbv zeta.
    repeat split; try exact Hin; try reflexivity; apply peek_range; lia.
Qed.

(** With a shard count that is not positive the pass panics when it draws
    the shard index. *)
Lemma balanced_build_panics (topic : string) (shards i now : Z) (r : Rand.t) :
  shards <= 0 ->
  ProducerBalanced.build topic shards i now r
  = Go.Panic "invalid argument to Intn".
Proof.
  intros Hs. unfold ProducerBalanced.build. draw.
  destruct (95 <=? Rand.peek 100 r).
  - unfold Rand.bind at 1. unfold Rand.bind at 1.
    rewrite Intn_pos by lia. cbn [Rand.ret].
    repeat draw.
    unfold Rand.bind. rewrite Intn_nonpos by exact Hs. reflexivity.
  - unfold Rand.bind at 1. cbn [Rand.ret].
    repeat draw.
    unfold Rand.bind. rewrite Intn_nonpos by exact Hs. reflexivity.
Qed.

End BuildFacts.

Section RenderFacts.
Import Sarama Pipeline.
Local Open Scope string_scope.

(** The sharded routing key: identifier, the literal delimiter, the index. *)
Lemma shard_key_render (pid : string) (shard : Z) :
  0 <= shard ->
  Fmt.Sprintf "%s#shard=%d" [Fmt.Str pid; Fmt.Int shard]
  = pid ++ "#shard=" ++ Fmt.itoa shard.
Proof.
  intros Hs. unfold Fmt.Sprintf.
  with_strategy opaque [Fmt.fmtInteger] simpl.
  rewrite fmtInteger_plain by exact Hs. rewrite append_nil_r. reflexivity.
Qed.

(** The format literal lays the event out as the flat record of its seven
    fields. *)
Lemma encode_wire_record (ev : gameEvent) :
  encode ev = wire_record (wire_fields ev).
Proof.
  destruct ev as [id pid gid et am tb ts].
  unfold encode, Fmt.Sprintf, wire_fields, wire_record.
  cbn [ID PlayerID GameID EventType Amount TableID TS].
  let f := eval vm_compute in payload_format in change payload_format with f.
  simpl. repeat (rewrite append_assoc; simpl). reflexivity.
Qed.

Lemma count_below (n : nat) (s : Z) :
  List.length (filter (fun d => (d <? s)%Z) (map Z.of_nat (seq 0 n)))
  = Nat.min n (Z.to_nat s).
Proof.
  induction n as [|n IH]; [reflexivity|].
  rewrite seq_S, map_app, filter_app, length_app, IH. cbn [Nat.add map filter].
  destruct (Z.of_nat n <? s)%Z eqn:Hlt; cbn [List.length].
  - apply Z.ltb_lt in Hlt. lia.
  - apply Z.ltb_ge in Hlt. lia.
Qed.

Lemma draws_below_percent (percent : Z) :
  0 <= percent <= 100 -> Z.of_nat (draws_below percent) = percent.
Proof.
  intros Hp. unfold draws_below. rewrite count_below. lia.
Qed.

(** Every shard index below the shard count is drawn by some source. *)
Lemma every_shard_reachable (topic : string) (shards i now s : Z) :
  (0 <= s < shards)%Z ->
  exists ev msg r',
    ProducerBalanced.build topic shards i now
      (Rand.of_list [0; 0; 0; 0; 0; s]%Z 0%Z) = Go.Ok ((ev, msg), r')
    /\ Key msg = vip ++ "#shard=" ++ Fmt.itoa s.
Proof.
  intros Hs. unfold ProducerBalanced.build. draw.
  change (Rand.peek 100 (Rand.of_list [0; 0; 0; 0; 0; s]%Z 0%Z)) with 0%Z.
  change (95 <=? 0)%Z with false. cbv iota.
  unfold Rand.bind at 1. cbn [Rand.ret].
  repeat draw.
  eexists _, _, _. split; [reflexivity|]. cbn [Key PlayerID].
  rewrite shard_key_render by (apply peek_range; lia).
  unfold Rand.peek, Rand.advance, Rand.of_list. cbn [Rand.tape Rand.pos nth].
  rewrite Z.mod_small by lia. reflexivity.
Qed.

End RenderFacts.

(* ================================================================== *)
(** * Key policies *)

Section KeyPolicies.
Import Sarama Pipeline.

(** C1 (as amended): for every skewPercent in [0,100] and every source, one
    pass of the skewed producer draws an identifier number n from
    [0,200000) and then a percentage d from [0,100); the routing key is the
    playerID; when d is below skewPercent the playerID is the fixed VIP
    identifier, otherwise it is the rendering player-NNNNNN of n, so the
    VIP identifier is emitted exactly when d is below skewPercent or n is 1.
    With skewPercent 0 the override is never taken, with skewPercent 100
    every routing key is the VIP identifier, and skewPercent of the hundred
    possible values of d take the override. *)
Theorem skewed_key_policy (topic : string) (skewPercent i now : Z) (r : Rand.t) :
  0 <= skewPercent <= 100 ->
  exists ev msg r',
    Producer.build topic skewPercent i now r = Go.Ok ((ev, msg), r')
    /\ 0 <= Rand.peek 200000 r < 200000
    /\ 0 <= Rand.peek 100 (Rand.advance r) < 100
    /\ Key msg = PlayerID ev
    /\ PlayerID ev
       = (if Rand.peek 100 (Rand.advance r) <? skewPercent then vip
          else Fmt.Sprintf "player-%06d" [Fmt.Int (Rand.peek 200000 r)])
    /\ (PlayerID ev = vip <->
        Rand.peek 100 (Rand.advance r) < skewPercent \/ Rand.peek 200000 r = 1)
    /\ (skewPercent = 0 ->
        Key msg = Fmt.Sprintf "player-%06d" [Fmt.Int (Rand.peek 200000 r)])
    /\ (skewPercent = 100 -> Key msg = vip)
    /\ Z.of_nat (draws_below skewPercent) = skewPercent.
Proof.
  intros Hs.
  destruct (producer_build_spec topic skewPercent i now r)
    as (g & et & a & tb & r' & _ & _ & _ & _ & Hb).
  cbv zeta in Hb.
  pose proof (peek_range 200000 r ltac:(lia)) as Hn.
  pose proof (peek_range 100 (Rand.advance r) ltac:(lia)) as Hd.
  eexists _, _, r'. split; [exact Hb|]. cbn [Key PlayerID].
  repeat match goal with |- _ /\ _ => split end;
    try lia; try reflexivity.
  - destruct (Rand.peek 100 (Rand.advance r) <? skewPercent) eqn:Hlt.
    + apply Z.ltb_lt in Hlt. tauto.
    + apply Z.ltb_ge in Hlt. rewrite player_id_is_vip by exact Hn. lia.
  - intros ->.
    destruct (Rand.peek 100 (Rand.advance r) <? 0) eqn:Hlt;
      [apply Z.ltb_lt in Hlt; lia | reflexivity].
  - intros ->.
    destruct (Rand.peek 100 (Rand.advance r) <? 100) eqn:Hlt;
      [reflexivity | apply Z.ltb_ge in Hlt; lia].
  - apply draws_below_percent. exact Hs.
Qed.

Lemma skewed_key_policy_witness :
  exists ev msg r',
    Producer.build "game-events" 95 0 1700000000000
      (Rand.of_list [424242; 96; 7; 1; 150; 42] 0) = Go.Ok ((ev, msg), r')
    /\ Key msg = "player-024242"%string.
Proof.
  destruct (skewed_key_policy "game-events" 95 0 1700000000000
              (Rand.of_list [424242; 96; 7; 1; 150; 42] 0) ltac:(lia))
    as (ev & msg & r' & Hb & _ & _ & Hk & Hp & _).
  exists ev, msg, r'. split; [exact Hb|].
  rewrite Hk, Hp. reflexivity.
Defined.

(** C1 as stated fails: a source whose identifier draw is 1 emits the VIP
    identifier although the percentage draw, 99, is not below 50. *)
Lemma skewed_vip_without_override :
  ~ Producer.vip_exactly_when_drawn 50 (Rand.of_list [1; 99] 0).
Proof.
  unfold Producer.vip_exactly_when_drawn. intros H.
  destruct (Producer.build "game-events" 50 0 0 (Rand.of_list [1; 99] 0))
    as [[[ev msg] r']|] eqn:E; [|vm_compute in E; discriminate].
  pose proof (proj1 (H _ _ _ _ _ _ E)) as Hlt.
  vm_compute in E. injection E as <- <- <-.
  specialize (Hlt eq_refl). vm_compute in Hlt. discriminate.
Qed.

(** C2 (as amended): for every shardCount > 0 and every source, one pass of
    the balanced producer draws a percentage d from [0,100); when d is below
    the fixed weight 95 the playerID is the VIP identifier, otherwise it is
    the rendering player-NNNNNN of a number n drawn from [0,200000), which
    is the VIP identifier again when n is 1; in both cases the routing key
    is the playerID, the literal #shard= and the decimal shard index, drawn
    from [0,shardCount), every index of which some source draws; 95 of the
    hundred values of d select the VIP. *)
Theorem sharded_key_policy (topic : string) (shards i now : Z) (r : Rand.t) :
  0 < shards ->
  exists ev msg r' shard,
    ProducerBalanced.build topic shards i now r = Go.Ok ((ev, msg), r')
    /\ 0 <= Rand.peek 100 r < 100
    /\ 0 <= Rand.peek 200000 (Rand.advance r) < 200000
    /\ PlayerID ev
       = (if 95 <=? Rand.peek 100 r
          then Fmt.Sprintf "player-%06d"
                 [Fmt.Int (Rand.peek 200000 (Rand.advance r))]
          else vip)
    /\ (PlayerID ev = vip <->
        Rand.peek 100 r < 95 \/ Rand.peek 200000 (Rand.advance r) = 1)
    /\ 0 <= shard < shards
    /\ Key msg = (PlayerID ev ++ "#shard=" ++ Fmt.itoa shard)%string
    /\ (forall s, 0 <= s < shards ->
        exists r0 ev0 msg0 r0',
          ProducerBalanced.build topic shards i now r0
          = Go.Ok ((ev0, msg0), r0')
          /\ Key msg0 = (vip ++ "#shard=" ++ Fmt.itoa s)%string)
    /\ draws_below 95 = 95%nat.
Proof.
  intros Hs.
  destruct (balanced_build_spec topic shards i now r Hs)
    as (g & et & a & tb & shard & r' & _ & _ & _ & _ & Hsh & Hb).
  cbv zeta in Hb.
  pose proof (peek_range 100 r ltac:(lia)) as Hd.
  pose proof (peek_range 200000 (Rand.advance r) ltac:(lia)) as Hn.
  eexists _, _, r', shard. split; [exact Hb|]. cbn [Key PlayerID].
  repeat match goal with |- _ /\ _ => split end;
    try lia; try reflexivity.
  - destruct (95 <=? Rand.peek 100 r) eqn:Hge.
    + apply Z.leb_le in Hge. rewrite player_id_is_vip by exact Hn. lia.
    + apply Z.leb_gt in Hge. tauto.
  - apply shard_key_render. lia.
  - intros s Hrange. eexists. apply every_shard_reachable. exact Hrange.
Qed.

Lemma sharded_key_policy_witness :
  exists ev msg r' shard,
    ProducerBalanced.build "game-events" 16 0 1700000000000
      (Rand.of_list [12; 7; 1; 150; 42; 9] 0) = Go.Ok ((ev, msg), r')
    /\ PlayerID ev = vip
    /\ 0 <= shard < 16
    /\ Key msg = (PlayerID ev ++ "#shard=" ++ Fmt.itoa shard)%string.
Proof.
  destruct (sharded_key_policy "game-events" 16 0 1700000000000
              (Rand.of_list [12; 7; 1; 150; 42; 9] 0) ltac:(lia))
    as (ev & msg & r' & shard & Hb & _ & _ & Hp & _ & Hs & Hk & _).
  exists ev, msg, r', shard. repeat split; try assumption; try lia.
Defined.

(** C2 as stated fails: with percentage draw 99 the VIP is not selected,
    yet identifier draw 1 yields the VIP identifier. *)
Lemma sharded_other_player_is_vip :
  ~ ProducerBalanced.non_vip_otherwise 16 (Rand.of_list [99; 1] 0).
Proof.
  unfold ProducerBalanced.non_vip_otherwise. intros H.
  destruct (ProducerBalanced.build "game-events" 16 0 0 (Rand.of_list [99; 1] 0))
    as [[[ev msg] r']|] eqn:E; [|vm_compute in E; discriminate].
  pose proof (H _ _ _ _ _ _ E) as Hne.
  vm_compute in E. injection E as <- <- <-.
  apply Hne; [vm_compute; discriminate | reflexivity].
Qed.

End KeyPolicies.

(* ================================================================== *)
(** * The generation loop and the process around it *)

Lemma wrap64_small (z : Z) : - 2 ^ 63 <= z < 2 ^ 63 -> Go.wrap64 z = z.
Proof. intros Hz. unfold Go.wrap64. rewrite Z.mod_small; lia. Qed.

(** The ticker interval of a rate that is not positive is not positive. *)
Lemma interval_of_negative_rate (rate : Z) :
  rate < 0 -> Go.wrap64 (Z.quot Pipeline.Second rate) <= 0.
Proof.
  intros Hr. unfold Pipeline.Second.
  assert (Hq : - 1000000000 <= Z.quot 1000000000 rate <= 0).
  { replace rate with (- - rate) by lia.
    rewrite Z.quot_opp_r by lia.
    assert (0 <= Z.quot 1000000000 (- rate) <= 1000000000).
    { split; [apply Z.quot_pos; lia|].
      apply Z.quot_le_upper_bound; nia. }
    lia. }
  rewrite wrap64_small; lia.
Qed.

Lemma interval_of_valid_rate (rate : Z) :
  0 < rate <= 1000000000 ->
  0 < Go.wrap64 (Z.quot Pipeline.Second rate) <= 1000000000.
Proof.
  intros Hr. unfold Pipeline.Second.
  assert (Hq : 1 <= Z.quot 1000000000 rate <= 1000000000).
  { split; [apply Z.quot_le_lower_bound; lia|].
    apply Z.quot_le_upper_bound; nia. }
  rewrite wrap64_small; lia.
Qed.

Section GenerationFacts.
Import Sarama Pipeline.

Variable build : Z -> Z -> Rand.M (gameEvent * ProducerMessage).

Lemma offers_app (tr1 tr2 : list event) :
  offers (tr1 ++ tr2) = offers tr1 ++ offers tr2.
Proof.
  induction tr1 as [|e tr1 IH]; [reflexivity|].
  destruct e; cbn [app offers]; rewrite ?IH; reflexivity.
Qed.

(** What a predicate that holds of everything [build] returns gives for the
    offers of the loop. *)
Lemma generation_offered (P : gameEvent -> ProducerMessage -> Prop) :
  (forall i now r ev msg r',
      build i now r = Go.Ok ((ev, msg), r') -> P ev msg) ->
  forall ts i r ch ev msg b,
    In (Offered ev msg b) (fst (generation build ts i r ch)) -> P ev msg.
Proof.
  intros HP ts. induction ts as [|t ts IH]; intros i r ch ev msg b Hin.
  - destruct Hin.
  - cbn [generation] in Hin. unfold iteration in Hin.
    destruct (build i (now t) r) as [[[ev0 msg0] r0]|] eqn:Hb.
    + destruct (select_send (dequeue (drained t) ch) msg0 i)
        as [[acc ch'] i'] eqn:Hsel.
      destruct (generation build ts i' r0 ch') as [tr crashed] eqn:Hgen.
      cbn [fst] in Hin. destruct Hin as [Hin | [Hin | Hin]].
      * discriminate.
      * injection Hin as <- <- <-. eapply HP. exact Hb.
      * eapply (IH i' r0 ch'). rewrite Hgen. exact Hin.
    + cbn in Hin. destruct Hin as [Hin | []]. discriminate.
Qed.

(** The identifiers offered follow the sequence counter. *)
Lemma generation_follows_counter :
  (forall i now r ev msg r',
      build i now r = Go.Ok ((ev, msg), r') -> ID ev = i) ->
  forall ts i r ch,
    follows_counter i (offers (fst (generation build ts i r ch))).
Proof.
  intros Hid ts. induction ts as [|t ts IH]; intros i r ch.
  - exact I.
  - cbn [generation]. unfold iteration.
    destruct (build i (now t) r) as [[[ev0 msg0] r0]|] eqn:Hb.
    + unfold select_send.
      destruct (full (dequeue (drained t) ch)).
      * specialize (IH i r0 (dequeue (drained t) ch)).
        destruct (generation build ts i r0 (dequeue (drained t) ch))
          as [tr crashed].
        cbn [fst offers follows_counter]. split; [eapply Hid; exact Hb | exact IH].
      * specialize (IH (Go.wrap64 (i + 1)) r0
                      (enqueue msg0 (dequeue (drained t) ch))).
        destruct (generation build ts (Go.wrap64 (i + 1)) r0
                    (enqueue msg0 (dequeue (drained t) ch))) as [tr crashed].
        cbn [fst offers follows_counter]. split; [eapply Hid; exact Hb | exact IH].
    + exact I.
Qed.

Lemma generation_offers_length (ts : list tick) :
  forall i r ch,
    (List.length (offers (fst (generation build ts i r ch)))
     <= List.length ts)%nat.
Proof.
  induction ts as [|t ts IH]; intros i r ch; [apply Nat.le_refl|].
  cbn [generation]. unfold iteration.
  destruct (build i (now t) r) as [[[ev0 msg0] r0]|].
  - destruct (select_send (dequeue (drained t) ch) msg0 i) as [[acc ch'] i'].
    specialize (IH i' r0 ch').
    destruct (generation build ts i' r0 ch') as [tr crashed].
    cbn [fst offers List.length] in *. lia.
  - cbn. lia.
Qed.

(** The offers of a whole process are those of its generation loop, or
    none when the loop was never reached. *)
Lemma run_with_offers (started brokers : string) (rate : Z) (w : world) :
  offers (fst (exit_of (run_with build started brokers rate w)))
  = offers (fst (generation build (ticks w) 0 (seed w)
                   (mkInput (input_capacity w) [])))
  \/ offers (fst (exit_of (run_with build started brokers rate w))) = [].
Proof.
  unfold run_with.
  destruct (connect_error w); [right; reflexivity|].
  destruct (Go.div Second rate) as [d|]; [|right; reflexivity].
  destruct (d <=? 0); [right; reflexivity|].
  destruct (generation build (ticks w) 0 (seed w)
              (mkInput (input_capacity w) [])) as [tr [msg|]]; left;
    cbn [exit_of fst app offers]; [reflexivity|].
  rewrite offers_app. unfold shutdown.
  destruct (close_in_time w); cbn; apply app_nil_r.
Qed.

Lemma In_offers (tr : list event) (ev : gameEvent) (b : bool) :
  In (ev, b) (offers tr) -> exists msg, In (Offered ev msg b) tr.
Proof.
  induction tr as [|e tr IH]; [cbn; intros []|].
  destruct e; cbn [offers]; intros Hin;
    try (destruct (IH Hin) as [m0 Hm0]; exists m0; right; exact Hm0).
  cbn [In] in Hin. destruct Hin as [Heq | Hin].
  - injection Heq as <- <-. eexists. left. reflexivity.
  - destruct (IH Hin) as [m Hm]. exists m. right. exact Hm.
Qed.

Lemma offers_In (tr : list event) (ev : gameEvent) (msg : ProducerMessage)
  (b : bool) :
  In (Offered ev msg b) tr -> In (ev, b) (offers tr).
Proof.
  induction tr as [|e tr IH]; [cbn; intros []|].
  intros [Heq | Hin].
  - subst e. left. reflexivity.
  - destruct e; cbn [offers]; try (apply IH; exact Hin).
    right. apply IH. exact Hin.
Qed.

(** The records offered by a whole process were built by [build]. *)
Lemma run_with_offered (P : gameEvent -> ProducerMessage -> Prop)
  (started brokers : string) (rate : Z) (w : world) :
  (forall i now r ev msg r',
      build i now r = Go.Ok ((ev, msg), r') -> P ev msg) ->
  forall ev msg b,
    In (Offered ev msg b) (fst (exit_of (run_with build started brokers rate w))) ->
    P ev msg.
Proof.
  intros HP ev msg b. unfold run_with.
  destruct (connect_error w).
  { cbn. intuition discriminate. }
  destruct (Go.div Second rate) as [d|].
  2:{ cbn. intuition discriminate. }
  destruct (d <=? 0).
  { cbn. intuition discriminate. }
  destruct (generation build (ticks w) 0 (seed w)
              (mkInput (input_capacity w) [])) as [tr crashed] eqn:Hgen.
  assert (Htr : In (Offered ev msg b) tr -> P ev msg).
  { intros Hin. eapply (generation_offered P HP (ticks w)).
    rewrite Hgen. exact Hin. }
  destruct crashed as [m|]; cbn [exit_of fst app]; intros Hin.
  - destruct Hin as [Hin | [Hin | [Hin | [Hin | Hin]]]];
      try discriminate. exact (Htr Hin).
  - destruct Hin as [Hin | [Hin | [Hin | [Hin | Hin]]]];
      try discriminate.
    apply in_app_or in Hin. destruct Hin as [Hin | Hin]; [exact (Htr Hin)|].
    unfold shutdown in Hin. cbn in Hin. destruct (close_in_time w);
      intuition discriminate.
Qed.

End GenerationFacts.

Section CounterFacts.
Import Sarama Pipeline.

(** While the counter cannot wrap, the accepted identifiers are the
    consecutive integers from its starting value. *)
Lemma follows_counter_accepted (os : list (gameEvent * bool)) :
  forall i, 0 <= i -> i + Z.of_nat (List.length os) < 2 ^ 63 ->
    follows_counter i os ->
    map (fun o => ID (fst o)) (filter snd os)
    = map (fun k => i + Z.of_nat k) (seq 0 (List.length (filter snd os))).
Proof.
  induction os as [|[ev b] os IH]; intros i Hi Hlen Hf; [reflexivity|].
  cbn [follows_counter] in Hf. destruct Hf as [Hid Hf].
  cbn [List.length] in Hlen. cbn [filter snd].
  destruct b.
  - rewrite wrap64_small in Hf by lia.
    cbn [map fst List.length seq].
    rewrite (IH (i + 1)) by (try exact Hf; lia).
    rewrite <- seq_shift, map_map. f_equal; [lia|].
    apply map_ext. intros k. lia.
  - apply IH; try exact Hf; lia.
Qed.

(** Between two consecutive offers the identifier moves on exactly when the
    first was accepted. *)
Lemma follows_counter_adjacent (pre : list (gameEvent * bool)) :
  forall i ev b ev' b' post,
    follows_counter i (pre ++ (ev, b) :: (ev', b') :: post) ->
    ID ev' = if b then Go.wrap64 (ID ev + 1) else ID ev.
Proof.
  induction pre as [|[e c] pre IH]; intros i ev b ev' b' post Hf.
  - cbn in Hf. destruct Hf as [<- [Hid' _]]. destruct b; exact Hid'.
  - cbn [app follows_counter] in Hf. destruct Hf as [_ Hf].
    eapply IH. exact Hf.
Qed.

Lemma follows_counter_range (os : list (gameEvent * bool)) :
  forall i, 0 <= i -> i + Z.of_nat (List.length os) < 2 ^ 63 ->
    follows_counter i os ->
    forall ev b, In (ev, b) os -> i <= ID ev < i + Z.of_nat (List.length os).
Proof.
  induction os as [|[e c] os IH]; intros i Hi Hlen Hf ev b Hin; [destruct Hin|].
  cbn [follows_counter] in Hf. destruct Hf as [Hid Hf].
  cbn [List.length] in *. destruct Hin as [Heq | Hin].
  - injection Heq as <- <-. lia.
  - destruct c.
    + rewrite wrap64_small in Hf by lia.
      pose proof (IH (i + 1) ltac:(lia) ltac:(lia) Hf ev b Hin). lia.
    + pose proof (IH i ltac:(lia) ltac:(lia) Hf ev b Hin). lia.
Qed.

End CounterFacts.

Section ProducerFacts.
Import Sarama Pipeline.

(** Whatever the skewed producer builds carries the counter as its
    identifier and is well formed on the wire. *)
Lemma producer_build_sound (topic : string) (skewPercent i now : Z)
  (r : Rand.t) (ev : gameEvent) (msg : ProducerMessage) (r' : Rand.t) :
  Producer.build topic skewPercent i now r = Go.Ok ((ev, msg), r') ->
  ID ev = i /\ well_formed ev msg.
Proof.
  intros Hb.
  destruct (producer_build_spec topic skewPercent i now r)
    as (g & et & a & tb & r0 & _ & _ & Ha & _ & Hspec).
  cbv zeta in Hspec. rewrite Hspec in Hb.
    match type of Hb with
    | Go.Ok (?e, ?m, _) = _ =>
        assert (He : ev = e) by congruence;
        assert (Hm : msg = m) by congruence
    end.
    subst ev msg.
  unfold well_formed. cbv beta iota delta [ID Value Amount].
  split; [reflexivity|]. split; [apply encode_wire_record | lia].
Qed.

(** The same for the balanced producer, whatever the shard count. *)
Lemma balanced_build_sound (topic : string) (shards i now : Z)
  (r : Rand.t) (ev : gameEvent) (msg : ProducerMessage) (r' : Rand.t) :
  ProducerBalanced.build topic shards i now r = Go.Ok ((ev, msg), r') ->
  ID ev = i /\ well_formed ev msg.
Proof.
  intros Hb. destruct (Z_lt_le_dec 0 shards) as [Hs | Hs].
  - destruct (balanced_build_spec topic shards i now r Hs)
      as (g & et & a & tb & shard & r0 & _ & _ & Ha & _ & _ & Hspec).
    cbv zeta in Hspec. rewrite Hspec in Hb.
    match type of Hb with
    | Go.Ok (?e, ?m, _) = _ =>
        assert (He : ev = e) by congruence;
        assert (Hm : msg = m) by congruence
    end.
    subst ev msg.
    unfold well_formed. cbv beta iota delta [ID Value Amount].
    split; [reflexivity|]. split; [apply encode_wire_record | lia].
  - rewrite balanced_build_panics in Hb by exact Hs. discriminate.
Qed.

(** A process whose rate is not positive never launches the generation
    task and does not end with status 0. *)
Lemma run_with_bad_rate
  (build : Z -> Z -> Rand.M (gameEvent * ProducerMessage))
  (started brokers : string) (rate : Z) (w : world) :
  rate <= 0 ->
  let p := exit_of (run_with build started brokers rate w) in
  snd p <> 0
  /\ ~ In GoGeneration (fst p)
  /\ ~ In TickerFired (fst p)
  /\ offers (fst p) = []
  /\ (connect_error w = None -> snd p = Go.panic_exit_code).
Proof.
  intros Hr. unfold run_with.
  destruct (connect_error w) as [err|].
  { cbn. repeat split; try discriminate; intuition discriminate. }
  unfold Go.div. destruct (rate =? 0) eqn:Hz.
  { cbn. repeat split; try discriminate; intuition discriminate. }
  apply Z.eqb_neq in Hz.
  pose proof (interval_of_negative_rate rate ltac:(lia)) as Hd.
  apply Z.leb_le in Hd. rewrite Hd.
  cbn. repeat split; try discriminate; intuition discriminate.
Qed.


End ProducerFacts.

(* ================================================================== *)
(** * Startup, publish path and sequence numbers of the producers *)

Section ProducerClaims.
Import Sarama Pipeline.

(** C4: for every configured rate that is zero or negative, both producers
    end with a non-zero exit status before the generation task is launched
    and before any tick is taken: once connected, the creation of the ticker
    panics (division by zero for rate 0, a non-positive interval for a
    negative rate), and nothing is ever offered to the transport. *)
Theorem nonpositive_rate_rejected :
  (forall opts w, Producer.Rate opts <= 0 ->
     let p := Producer.main (Some opts) w in
     snd p <> 0 /\ ~ In GoGeneration (fst p) /\ ~ In TickerFired (fst p)
     /\ offers (fst p) = []
     /\ (connect_error w = None -> snd p = Go.panic_exit_code))
  /\
  (forall opts w, ProducerBalanced.Rate opts <= 0 ->
     let p := ProducerBalanced.main (Some opts) w in
     snd p <> 0 /\ ~ In GoGeneration (fst p) /\ ~ In TickerFired (fst p)
     /\ offers (fst p) = []
     /\ (connect_error w = None -> snd p = Go.panic_exit_code)).
Proof.
  split; intros opts w Hr; cbv zeta;
    [unfold Producer.main, Producer.run
    | unfold ProducerBalanced.main, ProducerBalanced.run];
    apply run_with_bad_rate; exact Hr.
Qed.

Lemma nonpositive_rate_rejected_witness :
  snd (Producer.main
         (Some (Producer.mkOptions "localhost:29092" "game-events" 0 95))
         (mkWorld None (Rand.of_list [] 7) 256 [mkTick 1700000000000 0] true))
  <> 0
  /\ snd (ProducerBalanced.main
            (Some (ProducerBalanced.mkOptions "localhost:29092" "game-events"
                     (-5) 16))
            (mkWorld None (Rand.of_list [] 7) 256 [mkTick 1700000000000 0] true))
     <> 0.
Proof.
  split.
  - exact (proj1 (proj1 nonpositive_rate_rejected
                    (Producer.mkOptions "localhost:29092" "game-events" 0 95)
                    (mkWorld None (Rand.of_list [] 7) 256
                       [mkTick 1700000000000 0] true)
                    ltac:(cbn; lia))).
  - exact (proj1 (proj2 nonpositive_rate_rejected
                    (ProducerBalanced.mkOptions "localhost:29092" "game-events"
                       (-5) 16)
                    (mkWorld None (Rand.of_list [] 7) 256
                       [mkTick 1700000000000 0] true)
                    ltac:(cbn; lia))).
Defined.




End ProducerClaims.

Section PublishClaims.
Import Sarama Pipeline.






(** Offers of a whole process follow the counter from 0, and there are no
    more of them than firings of the ticker. *)
Lemma run_with_counter
  (build : Z -> Z -> Rand.M (gameEvent * ProducerMessage))
  (started brokers : string) (rate : Z) (w : world) :
  (forall i now r ev msg r',
      build i now r = Go.Ok ((ev, msg), r') -> ID ev = i) ->
  let os := offers (fst (exit_of (run_with build started brokers rate w))) in
  follows_counter 0 os /\ (List.length os <= List.length (ticks w))%nat.
Proof.
  intros Hid. cbv zeta.
  destruct (run_with_offers build started brokers rate w) as [-> | ->].
  - split; [apply generation_follows_counter; exact Hid
           | apply generation_offers_length].
  - split; [exact I | cbn; lia].
Qed.

(** What following the counter from 0 means for a trace short enough for
    the 64-bit counter not to wrap. *)
Lemma counter_consequences (os : list (gameEvent * bool)) :
  follows_counter 0 os -> Z.of_nat (List.length os) < 2 ^ 63 ->
  map (fun o => ID (fst o)) (filter snd os)
  = map Z.of_nat (seq 0 (List.length (filter snd os)))
  /\ (forall pre ev b ev' b' post,
        os = pre ++ (ev, b) :: (ev', b') :: post ->
        ID ev' = if b then ID ev + 1 else ID ev).
Proof.
  intros Hf Hlen. split.
  - rewrite (follows_counter_accepted os 0) by (try exact Hf; lia).
    apply map_ext. intros k. lia.
  - intros pre ev b ev' b' post Heq.
    pose proof (follows_counter_range os 0 ltac:(lia) ltac:(lia) Hf ev b) as Hr.
    rewrite Heq in Hf. pose proof (follows_counter_adjacent _ _ _ _ _ _ _ Hf) as Ha.
    destruct b; [|exact Ha].
    rewrite wrap64_small in Ha; [exact Ha|].
    assert (Hin : In (ev, true) os)
      by (rewrite Heq; apply in_or_app; right; left; reflexivity).
    specialize (Hr Hin). lia.
Qed.

(** C10: in either producer the sequence counter moves on only when the
    transport accepts the record: in any run of fewer than 2^63 ticks (so
    that the 64-bit counter cannot wrap) the ids of the accepted records
    are, in order, 0, 1, 2, ..., and of two consecutive offers the second
    carries the id of the first when the first was dropped and the next id
    when it was accepted. *)
Theorem accepted_ids_consecutive :
  (forall opts w,
      Z.of_nat (List.length (ticks w)) < 2 ^ 63 ->
      let tr := fst (Producer.main (Some opts) w) in
      accepted_ids tr = map Z.of_nat (seq 0 (List.length (accepted_ids tr)))
      /\ (forall pre ev b ev' b' post,
            offers tr = pre ++ (ev, b) :: (ev', b') :: post ->
            ID ev' = if b then ID ev + 1 else ID ev))
  /\
  (forall opts w,
      Z.of_nat (List.length (ticks w)) < 2 ^ 63 ->
      let tr := fst (ProducerBalanced.main (Some opts) w) in
      accepted_ids tr = map Z.of_nat (seq 0 (List.length (accepted_ids tr)))
      /\ (forall pre ev b ev' b' post,
            offers tr = pre ++ (ev, b) :: (ev', b') :: post ->
            ID ev' = if b then ID ev + 1 else ID ev)).
Proof.
  split; intros opts w Hlen; cbv zeta; unfold accepted_ids;
    rewrite length_map.
  - unfold Producer.main, Producer.run.
    match goal with
    | |- context [run_with ?bd ?st ?br ?rt w] =>
        destruct (run_with_counter bd st br rt w) as [Hf Hn]
    end.
    { intros i now r ev msg r' Hb.
      eapply producer_build_sound. exact Hb. }
    apply counter_consequences; [exact Hf | lia].
  - unfold ProducerBalanced.main, ProducerBalanced.run.
    match goal with
    | |- context [run_with ?bd ?st ?br ?rt w] =>
        destruct (run_with_counter bd st br rt w) as [Hf Hn]
    end.
    { intros i now r ev msg r' Hb.
      eapply balanced_build_sound. exact Hb. }
    apply counter_consequences; [exact Hf | lia].
Qed.

Lemma accepted_ids_consecutive_witness :
  accepted_ids
    (fst (Producer.main
            (Some (Producer.mkOptions "localhost:29092" "game-events" 400 95))
            (mkWorld None (Rand.of_list [3; 50] 11) 2
               [mkTick 1000 0; mkTick 1002 0; mkTick 1005 0; mkTick 1007 1;
                mkTick 1010 0] true)))
  = [0; 1; 2].
Proof.
  rewrite (proj1 (proj1 accepted_ids_consecutive
             (Producer.mkOptions "localhost:29092" "game-events" 400 95)
             (mkWorld None (Rand.of_list [3; 50] 11) 2
               [mkTick 1000 0; mkTick 1002 0; mkTick 1005 0; mkTick 1007 1;
                mkTick 1010 0] true)
             ltac:(cbn; lia))).
  vm_compute. reflexivity.
Defined.

End PublishClaims.

(* ================================================================== *)
(** * The consumer *)

Section ConsumerClaims.
Import Sarama Consumer.

Lemma marked_offsets_app (tr1 tr2 : list event) :
  marked_offsets (tr1 ++ tr2) = marked_offsets tr1 ++ marked_offsets tr2.
Proof.
  induction tr1 as [|e tr1 IH]; [reflexivity|].
  destruct e; cbn [app marked_offsets]; rewrite ?IH; reflexivity.
Qed.

Lemma samples_app (tr1 tr2 : list event) :
  samples (tr1 ++ tr2) = samples tr1 ++ samples tr2.
Proof.
  induction tr1 as [|e tr1 IH]; [reflexivity|].
  destruct e; cbn [app samples]; rewrite ?IH; reflexivity.
Qed.

(** Go's remainder is zero exactly on the multiples of the divisor. *)
Lemma rem_zero_divide (a b : Z) : b <> 0 -> (Go.rem a b = 0 <-> (b | a)).
Proof. intros Hb. unfold Go.rem. apply Z.rem_divide. exact Hb. Qed.

Lemma rem_eqb_mod_eqb (a : Z) :
  (Go.rem a 500 =? 0) = (a mod sampling_interval =? 0).
Proof.
  unfold sampling_interval.
  destruct (Go.rem a 500 =? 0) eqn:Hr; symmetry.
  - apply Z.eqb_eq in Hr. apply rem_zero_divide in Hr; [|lia].
    apply Z.eqb_eq. apply Z.mod_divide; [lia | exact Hr].
  - apply Z.eqb_neq in Hr. apply Z.eqb_neq. intros Hm. apply Hr.
    apply rem_zero_divide; [lia|]. apply Z.mod_divide; [lia | exact Hm].
Qed.

(** Marks in the trace of the loop are each preceded by one more completed
    sleep than there are earlier marks. *)
Lemma mark_after_sleep (h : handler) (p : Z) (msgs : list ConsumerMessage) :
  forall pre msg post,
    ConsumeClaim_loop h p msgs = pre ++ Marked msg :: post ->
    List.length (filter is_Slept pre) = S (List.length (filter is_Marked pre)).
Proof.
  induction msgs as [|m msgs IH]; intros pre msg post Heq.
  - destruct pre; discriminate.
  - cbn [ConsumeClaim_loop] in Heq. unfold process in Heq.
    destruct (Go.rem (Offset m) 500 =? 0); cbn [app] in Heq.
    + destruct pre as [|e1 pre]; [discriminate|].
      injection Heq as <- Heq.
      destruct pre as [|e2 pre]; [discriminate|].
      injection Heq as <- Heq.
      destruct pre as [|e3 pre]; [reflexivity|].
      injection Heq as <- Heq.
      cbn [filter is_Slept is_Marked List.length].
      rewrite (IH _ _ _ Heq). reflexivity.
    + destruct pre as [|e1 pre]; [discriminate|].
      injection Heq as <- Heq.
      destruct pre as [|e2 pre]; [reflexivity|].
      injection Heq as <- Heq.
      cbn [filter is_Slept is_Marked List.length].
      rewrite (IH _ _ _ Heq). reflexivity.
Qed.

Lemma loop_marked_offsets (h : handler) (p : Z) (msgs : list ConsumerMessage) :
  marked_offsets (ConsumeClaim_loop h p msgs) = map Offset msgs.
Proof.
  induction msgs as [|m msgs IH]; [reflexivity|].
  cbn [ConsumeClaim_loop map]. rewrite marked_offsets_app, IH.
  unfold process. destruct (Go.rem (Offset m) 500 =? 0); reflexivity.
Qed.

Lemma loop_samples (h : handler) (p : Z) (msgs : list ConsumerMessage) :
  samples (ConsumeClaim_loop h p msgs)
  = map (fun m => (p, Offset m, MsgKey m))
      (filter (fun m => Offset m mod sampling_interval =? 0) msgs).
Proof.
  induction msgs as [|m msgs IH]; [reflexivity|].
  cbn [ConsumeClaim_loop filter]. rewrite samples_app, IH.
  unfold process. rewrite <- rem_eqb_mod_eqb.
  destruct (Go.rem (Offset m) 500 =? 0); reflexivity.
Qed.

(** C3 (the code departs from it): when the first thing the consumer's
    select receives is a consume error, [run] logs it and returns nil, and
    the process ends with exit status 0; a failure to create the consumer
    group, by contrast, is returned by [run] and ends the process with
    status 1. *)
Theorem consume_fault_exits_zero (opts : options) (err : string) :
  (let p := main (Some opts) (mkWorld None (ConsumeReturned (Some err))) in
   snd p = 0 /\ In (Log ERROR "consume error") (fst p))
  /\ (forall w, snd (main (Some opts) (mkWorld (Some err) w)) = 1).
Proof.
  cbv zeta. unfold main, run. cbn [group_error first fst snd].
  split; [split; [reflexivity | cbn; tauto] | reflexivity].
Qed.

(** C7: for the records of one partition, delivered in strictly increasing
    offset order, the loop marks them in that same strictly increasing
    order, one mark per record, and every mark comes after the sleep of its
    own record has completed: before the k-th mark exactly k sleeps have
    ended.  The loop then returns nil. *)
Theorem consume_in_order_ack_after_work (h : handler) (p : Z)
  (msgs : list ConsumerMessage) :
  StronglySorted Z.lt (map Offset msgs) ->
  let tr := fst (ConsumeClaim h p msgs) in
  marked_offsets tr = map Offset msgs
  /\ StronglySorted Z.lt (marked_offsets tr)
  /\ (forall pre msg post,
        tr = pre ++ Marked msg :: post ->
        List.length (filter is_Slept pre)
        = S (List.length (filter is_Marked pre)))
  /\ (forall d, In (Slept d) tr -> d = work h)
  /\ snd (ConsumeClaim h p msgs) = None.
Proof.
  intros Hsorted. cbv zeta. unfold ConsumeClaim. cbn [fst snd].
  rewrite loop_marked_offsets.
  split; [reflexivity|]. split; [exact Hsorted|].
  split; [apply mark_after_sleep|]. split; [|reflexivity].
  induction msgs as [|m msgs IH]; intros d Hin; [destruct Hin|].
  cbn [ConsumeClaim_loop] in Hin. apply in_app_or in Hin.
  destruct Hin as [Hin | Hin].
  - unfold process in Hin. destruct (Go.rem (Offset m) 500 =? 0);
      cbn in Hin; intuition congruence.
  - apply IH; [|exact Hin]. inversion Hsorted; assumption.
Qed.

Lemma consume_in_order_ack_after_work_witness :
  marked_offsets
    (fst (ConsumeClaim (mkHandler 2000000) 2
            [mkConsumerMessage "player-000001" "{}" 2 499;
             mkConsumerMessage "player-000001" "{}" 2 500;
             mkConsumerMessage "player-000777" "{}" 2 501]))
  = [499; 500; 501].
Proof.
  apply (consume_in_order_ack_after_work (mkHandler 2000000) 2
           [mkConsumerMessage "player-000001" "{}" 2 499;
            mkConsumerMessage "player-000001" "{}" 2 500;
            mkConsumerMessage "player-000777" "{}" 2 501]).
  cbn. repeat constructor.
Defined.

(** C8: the loop emits an observability record (partition, offset, key) for
    a consumed record if and only if the record's offset is divisible by the
    sampling interval, which is 500: the samples of a claim are exactly
    those of its records whose offset is a multiple of 500, in order. *)
Theorem sampled_every_500th_offset (h : handler) (p : Z) :
  sampling_interval = 500
  /\ (forall msg,
        In (Sampled p (Offset msg) (MsgKey msg)) (process h p msg)
        <-> (sampling_interval | Offset msg))
  /\ (forall msg, samples (process h p msg) = [(p, Offset msg, MsgKey msg)]
                  \/ samples (process h p msg) = [])
  /\ (forall msgs,
        samples (fst (ConsumeClaim h p msgs))
        = map (fun m => (p, Offset m, MsgKey m))
            (filter (fun m => Offset m mod sampling_interval =? 0) msgs)).
Proof.
  split; [reflexivity|]. split; [|split].
  - intros msg. unfold process, sampling_interval.
    rewrite <- (rem_zero_divide (Offset msg) 500) by lia.
    destruct (Go.rem (Offset msg) 500 =? 0) eqn:Hr.
    + apply Z.eqb_eq in Hr. cbn. tauto.
    + apply Z.eqb_neq in Hr. cbn. split; [|tauto].
      intuition discriminate.
  - intros msg. unfold process.
    destruct (Go.rem (Offset msg) 500 =? 0); cbn; tauto.
  - intros msgs. unfold ConsumeClaim. cbn [fst]. apply loop_samples.
Qed.

Lemma sampled_every_500th_offset_witness :
  samples
    (fst (ConsumeClaim (mkHandler 2000000) 2
            [mkConsumerMessage "player-000001" "{}" 2 499;
             mkConsumerMessage "player-000001" "{}" 2 500;
             mkConsumerMessage "player-000777" "{}" 2 501;
             mkConsumerMessage "player-000001" "{}" 2 1000]))
  = [(2, 500, "player-000001"%string); (2, 1000, "player-000001"%string)].
Proof.
  rewrite (proj2 (proj2 (proj2 (sampled_every_500th_offset
                                  (mkHandler 2000000) 2)))).
  reflexivity.
Defined.

End ConsumerClaims.

(* ================================================================== *)
(** * Further properties: choices, numerals and keys *)

Section PickFacts.
Import Sarama Pipeline.

(** X1: [pick] on a non-empty slice takes one draw and returns an element
    of the slice, every element being returned for some source; on an
    empty slice it panics in the draw. *)
Theorem pick_returns_element :
  (forall ss r, ss <> [] ->
     exists s, pick ss r = Go.Ok (s, Rand.advance r) /\ In s ss)
  /\ (forall r, pick [] r = Go.Panic "invalid argument to Intn")
  /\ (forall ss s, In s ss ->
        exists r, pick ss r = Go.Ok (s, Rand.advance r)).
Proof.
  split; [|split].
  - intros ss r Hne. unfold pick.
    assert (Hlen : 0 < Z.of_nat (List.length ss))
      by (destruct ss; [congruence | cbn [List.length]; lia]).
    rewrite bind_Intn_pos by exact Hlen.
    pose proof (peek_range _ r Hlen) as Hp.
    destruct (nth_error ss (Z.to_nat (Rand.peek (Z.of_nat (List.length ss)) r)))
      as [s|] eqn:Hn.
    + exists s. split; [reflexivity|]. eapply nth_error_In. exact Hn.
    + apply nth_error_None in Hn. lia.
  - intros r. reflexivity.
  - intros ss s Hin. destruct (In_nth_error ss s Hin) as [n Hn].
    assert (Hlt : (n < List.length ss)%nat)
      by (apply nth_error_Some; congruence).
    exists (Rand.of_list [Z.of_nat n] 0). unfold pick.
    rewrite bind_Intn_pos by lia.
    unfold Rand.peek, Rand.of_list. cbn [Rand.tape Rand.pos nth].
    rewrite Z.mod_small by lia. rewrite Nat2Z.id, Hn. reflexivity.
Qed.

Lemma pick_returns_element_witness :
  exists s, pick event_types Scenario.source
            = Go.Ok (s, Rand.advance Scenario.source)
            /\ In s event_types.
Proof.
  apply (proj1 pick_returns_element). discriminate.
Defined.

End PickFacts.

Section NumeralFacts.
Local Open Scope string_scope.

Lemma is_digit_digit_char (d : Z) :
  (0 <= d < 10)%Z -> Fmt.is_digit (Fmt.digit_char d) = true.
Proof.
  intros Hd. unfold Fmt.is_digit, Fmt.digit_char.
  rewrite nat_ascii_embedding by lia.
  apply andb_true_intro. split; apply Nat.leb_le; lia.
Qed.

Lemma all_digits_app (s1 s2 : string) :
  Strings.all_digits (s1 ++ s2)
  = Strings.all_digits s1 && Strings.all_digits s2.
Proof.
  induction s1 as [|c s1 IH]; [reflexivity|].
  cbn [append Strings.all_digits]. rewrite IH. apply andb_assoc.
Qed.

(** The digit loop writes digits only, and no more of them than the number
    has decimal places. *)
Lemma fmt_digits_shape (fuel : nat) :
  forall u acc k,
    (0 <= u < 10 ^ Z.of_nat k)%Z -> (1 <= k <= fuel)%nat ->
    Strings.all_digits acc = true ->
    Strings.all_digits (Fmt.fmt_digits fuel u acc) = true
    /\ (String.length acc < String.length (Fmt.fmt_digits fuel u acc)
        <= k + String.length acc)%nat.
Proof.
  induction fuel as [|fuel IH]; intros u acc k Hu Hk Hacc; [lia|].
  cbn [Fmt.fmt_digits]. destruct (u <? 10)%Z eqn:Hlt.
  - apply Z.ltb_lt in Hlt. cbn [Strings.all_digits String.length].
    rewrite is_digit_digit_char, Hacc by lia. split; [reflexivity | lia].
  - apply Z.ltb_ge in Hlt.
    assert (Hk2 : (2 <= k)%nat).
    { destruct k as [|[|k]]; [lia | cbn in Hu; lia | lia]. }
    assert (Hq : (0 <= u / 10 < 10 ^ Z.of_nat (k - 1))%Z).
    { split; [apply Z.div_pos; lia|].
      apply Z.div_lt_upper_bound; [lia|].
      replace (Z.of_nat k) with (Z.succ (Z.of_nat (k - 1))) in Hu by lia.
      rewrite Z.pow_succ_r in Hu by lia. lia. }
    pose proof (Z.mod_pos_bound u 10 ltac:(lia)) as Hm.
    destruct (IH (u / 10)%Z (String (Fmt.digit_char (u mod 10)) acc) (k - 1)%nat
                Hq ltac:(lia)) as [Hd Hl].
    { cbn [Strings.all_digits]. rewrite is_digit_digit_char, Hacc by lia.
      reflexivity. }
    cbn [String.length] in Hl. split; [exact Hd | lia].
Qed.

Lemma itoa_shape (u : Z) (k : nat) :
  (0 <= u < 10 ^ Z.of_nat k)%Z -> (1 <= k <= 20)%nat ->
  Strings.all_digits (Fmt.itoa u) = true
  /\ (1 <= String.length (Fmt.itoa u) <= k)%nat.
Proof.
  intros Hu Hk. unfold Fmt.itoa.
  destruct (fmt_digits_shape 20 u EmptyString k Hu Hk eq_refl) as [Hd Hl].
  cbn [String.length] in Hl. split; [exact Hd | lia].
Qed.

Lemma itoa_injective (u v : Z) :
  (0 <= u < 10 ^ 20)%Z -> (0 <= v < 10 ^ 20)%Z ->
  Fmt.itoa u = Fmt.itoa v -> u = v.
Proof.
  intros Hu Hv Heq.
  rewrite <- (itoa_value u Hu), <- (itoa_value v Hv), Heq. reflexivity.
Qed.

Lemma append_cancel_l (p s1 s2 : string) : p ++ s1 = p ++ s2 -> s1 = s2.
Proof.
  induction p as [|c p IH]; cbn [append]; intros Heq; [exact Heq|].
  injection Heq as Heq. apply IH. exact Heq.
Qed.

(** X2: [%d] renders every integer of 64-bit magnitude so that it reads
    back as itself: the digits of its absolute value, after a minus sign
    when it is negative; distinct integers have distinct renderings. *)
Theorem decimal_round_trip :
  forall v w : Z,
    (- 10 ^ 20 < v < 10 ^ 20)%Z -> (- 10 ^ 20 < w < 10 ^ 20)%Z ->
    Strings.int_value (Fmt.fmtInteger false None v) = v
    /\ Fmt.Sprintf "%d" [Fmt.Int v] = Fmt.fmtInteger false None v
    /\ Fmt.Sprintf "%d" [Fmt.Int64 v] = Fmt.fmtInteger false None v
    /\ (Fmt.fmtInteger false None v = Fmt.fmtInteger false None w -> v = w).
Proof.
  assert (Hread : forall v : Z, (- 10 ^ 20 < v < 10 ^ 20)%Z ->
            Strings.int_value (Fmt.fmtInteger false None v) = v).
  { intros v Hv. unfold Fmt.fmtInteger.
    destruct (v <? 0)%Z eqn:Hneg.
    - apply Z.ltb_lt in Hneg. unfold Fmt.pad_left.
      cbn [Nat.sub Fmt.repeat_char append Strings.int_value Ascii.eqb Bool.eqb].
      rewrite itoa_value by lia. lia.
    - apply Z.ltb_ge in Hneg. unfold Fmt.pad_left.
      cbn [Nat.sub Fmt.repeat_char append]. rewrite Z.abs_eq by lia.
      destruct (itoa_shape v 20 ltac:(lia) ltac:(lia)) as [Hd Hl].
      destruct (Fmt.itoa v) as [|c rest] eqn:Hs; [cbn in Hl; lia|].
      unfold Strings.int_value.
      destruct (Ascii.eqb c "-") eqn:Hc.
      + apply Ascii.eqb_eq in Hc. subst c. cbn in Hd. discriminate.
      + rewrite <- Hs. apply itoa_value. lia. }
  intros v w Hv Hw. split; [apply Hread; exact Hv|].
  split; [|split].
  - unfold Fmt.Sprintf. with_strategy opaque [Fmt.fmtInteger] simpl.
    apply append_nil_r.
  - unfold Fmt.Sprintf. with_strategy opaque [Fmt.fmtInteger] simpl.
    apply append_nil_r.
  - intros Heq. rewrite <- (Hread v Hv), <- (Hread w Hw), Heq. reflexivity.
Qed.

Lemma decimal_round_trip_witness :
  Strings.int_value (Fmt.fmtInteger false None (-1700000000000))
  = (-1700000000000)%Z.
Proof.
  exact (proj1 (decimal_round_trip (-1700000000000) 42
                  ltac:(lia) ltac:(lia))).
Defined.

End NumeralFacts.

Section KeyFacts.
Import Sarama Pipeline.
Local Open Scope string_scope.

Lemma player_id_length (n : Z) :
  (0 <= n < 1000000)%Z ->
  String.length (Fmt.Sprintf "player-%06d" [Fmt.Int n]) = 13%nat.
Proof.
  intros Hn. rewrite player_id_render by lia.
  rewrite length_append, length_pad_left.
  destruct (itoa_shape n 6 ltac:(lia) ltac:(lia)) as [_ Hl].
  cbn [String.length]. lia.
Qed.

Lemma player_id_injective (n m : Z) :
  (0 <= n < 10 ^ 20)%Z -> (0 <= m < 10 ^ 20)%Z ->
  Fmt.Sprintf "player-%06d" [Fmt.Int n] = Fmt.Sprintf "player-%06d" [Fmt.Int m] ->
  n = m.
Proof.
  intros Hn Hm Heq. rewrite !player_id_render in Heq by lia.
  apply append_cancel_l in Heq.
  apply (f_equal (fun s => Fmt.digits_value s 0)) in Heq.
  unfold Fmt.pad_left in Heq.
  rewrite !digits_value_zeros, !itoa_value in Heq by lia. exact Heq.
Qed.

(** X3: the identifiers player-NNNNNN of the numbers the producers draw,
    [0,200000), are thirteen characters long and pairwise distinct, so the
    identifier space has exactly 200000 members. *)
Theorem player_ids_distinct :
  forall n m : Z,
    (0 <= n < 200000)%Z -> (0 <= m < 200000)%Z ->
    String.length (Fmt.Sprintf "player-%06d" [Fmt.Int n]) = 13%nat
    /\ (Fmt.Sprintf "player-%06d" [Fmt.Int n]
        = Fmt.Sprintf "player-%06d" [Fmt.Int m] -> n = m).
Proof.
  intros n m Hn Hm. split.
  - apply player_id_length. lia.
  - apply player_id_injective; lia.
Qed.

Lemma player_ids_distinct_witness :
  String.length (Fmt.Sprintf "player-%06d" [Fmt.Int 199999]) = 13%nat.
Proof.
  exact (proj1 (player_ids_distinct 199999 0 ltac:(lia) ltac:(lia))).
Defined.

Lemma shard_key_injective (pid : string) (s1 s2 : Z) :
  (0 <= s1 < 10 ^ 20)%Z -> (0 <= s2 < 10 ^ 20)%Z ->
  Fmt.Sprintf "%s#shard=%d" [Fmt.Str pid; Fmt.Int s1]
  = Fmt.Sprintf "%s#shard=%d" [Fmt.Str pid; Fmt.Int s2] ->
  s1 = s2.
Proof.
  intros H1 H2 Heq. rewrite !shard_key_render in Heq by lia.
  apply append_cancel_l in Heq. apply append_cancel_l in Heq.
  apply itoa_injective; assumption.
Qed.

(** X4: for one player the sharded routing keys of distinct shard indices
    are distinct, so a shard count n (of at most 64-bit size) spreads the
    player over exactly n routing keys, each of which the balanced producer
    emits for the VIP under some source. *)
Theorem shard_keys_distinct (pid : string) (n : nat) :
  (Z.of_nat n < 2 ^ 63)%Z ->
  let key := fun s : nat =>
               Fmt.Sprintf "%s#shard=%d" [Fmt.Str pid; Fmt.Int (Z.of_nat s)] in
  NoDup (map key (seq 0 n))
  /\ List.length (map key (seq 0 n)) = n
  /\ (forall topic i now s, (s < n)%nat ->
        exists r ev msg r',
          ProducerBalanced.build topic (Z.of_nat n) i now r
          = Go.Ok ((ev, msg), r')
          /\ Key msg
             = Fmt.Sprintf "%s#shard=%d" [Fmt.Str vip; Fmt.Int (Z.of_nat s)]).
Proof.
  intros Hn key. split; [|split].
  - apply NoDup_map_NoDup_ForallPairs; [|apply seq_NoDup].
    intros a b Ha Hb Heq. apply in_seq in Ha. apply in_seq in Hb.
    unfold key in Heq. apply shard_key_injective in Heq; lia.
  - rewrite length_map, length_seq. reflexivity.
  - intros topic i now s Hs.
    destruct (every_shard_reachable topic (Z.of_nat n) i now (Z.of_nat s)
                ltac:(lia)) as (ev & msg & r' & Hb & Hk).
    eexists _, ev, msg, r'. split; [exact Hb|].
    rewrite Hk. symmetry. apply shard_key_render. lia.
Qed.

Lemma shard_keys_distinct_witness :
  List.length
    (map (fun s : nat =>
            Fmt.Sprintf "%s#shard=%d" [Fmt.Str vip; Fmt.Int (Z.of_nat s)])
       (seq 0 16)) = 16%nat.
Proof.
  exact (proj1 (proj2 (shard_keys_distinct vip 16 ltac:(cbn; lia)))).
Defined.

End KeyFacts.

Section SplitFacts.
Local Open Scope string_scope.

Lemma split_on_nonempty (sep : ascii) (s cur : string) :
  Go.split_on sep s cur <> [].
Proof.
  revert cur. induction s as [|c s IH]; intros cur; cbn [Go.split_on].
  - discriminate.
  - destruct (Ascii.eqb c sep); [discriminate | apply IH].
Qed.

Lemma Join_cons (s : string) (rest : list string) (sep : string) :
  rest <> [] -> Strings.Join (s :: rest) sep = s ++ sep ++ Strings.Join rest sep.
Proof. destruct rest; [congruence | reflexivity]. Qed.

Lemma split_on_join (sep : ascii) (s : string) :
  forall cur,
    Strings.Join (Go.split_on sep s cur) (String sep EmptyString) = cur ++ s.
Proof.
  induction s as [|c s IH]; intros cur; cbn [Go.split_on].
  - cbn [Strings.Join]. symmetry. apply append_nil_r.
  - destruct (Ascii.eqb c sep) eqn:Hc.
    + apply Ascii.eqb_eq in Hc. subst c.
      rewrite Join_cons by apply split_on_nonempty.
      rewrite IH. reflexivity.
    + rewrite IH, append_assoc. reflexivity.
Qed.

Lemma contains_app (c : ascii) (s1 s2 : string) :
  Strings.contains c (s1 ++ s2) = Strings.contains c s1 || Strings.contains c s2.
Proof.
  induction s1 as [|c' s1 IH]; [reflexivity|].
  cbn [append Strings.contains]. rewrite IH. apply orb_assoc.
Qed.

Lemma split_on_pieces (sep : ascii) (s : string) :
  forall cur,
    Strings.contains sep cur = false ->
    Forall (fun piece => Strings.contains sep piece = false)
      (Go.split_on sep s cur).
Proof.
  induction s as [|c s IH]; intros cur Hcur; cbn [Go.split_on].
  - constructor; [exact Hcur | constructor].
  - destruct (Ascii.eqb c sep) eqn:Hc.
    + constructor; [exact Hcur|]. apply IH. reflexivity.
    + apply IH. rewrite contains_app, Hcur. cbn. rewrite Hc. reflexivity.
Qed.

Lemma split_on_count (sep : ascii) (s : string) :
  forall cur,
    List.length (Go.split_on sep s cur) = S (Strings.occurrences sep s).
Proof.
  induction s as [|c s IH]; intros cur; cbn [Go.split_on Strings.occurrences].
  - reflexivity.
  - destruct (Ascii.eqb c sep); cbn [List.length]; rewrite IH; reflexivity.
Qed.

(** X5: the broker list a program hands to the client is the configured
    string cut at its commas: joining the pieces with commas gives the
    string back, no piece contains a comma, and there is one piece more
    than there are commas (a single empty piece for the empty string).  It
    is the first thing every run of the three programs does. *)
Theorem broker_list_round_trip (kafkaBrokers : string) :
  let brokers := Go.Split kafkaBrokers "," in
  Strings.Join brokers "," = kafkaBrokers
  /\ Forall (fun b => Strings.contains "," b = false) brokers
  /\ List.length brokers = S (Strings.occurrences "," kafkaBrokers)
  /\ (forall topic rate skewPercent w,
        hd_error (fst (Producer.run kafkaBrokers topic rate skewPercent w))
        = Some (Pipeline.NewAsyncProducer brokers))
  /\ (forall topic rate shards w,
        hd_error (fst (ProducerBalanced.run kafkaBrokers topic rate shards w))
        = Some (Pipeline.NewAsyncProducer brokers))
  /\ (forall topic group workMs w,
        hd_error (fst (Consumer.run kafkaBrokers topic group workMs w))
        = Some (Consumer.NewConsumerGroup brokers group)).
Proof.
  cbv zeta. unfold Go.Split.
  split; [apply (split_on_join "," kafkaBrokers EmptyString)|].
  split; [apply split_on_pieces; reflexivity|].
  split; [apply split_on_count|].
  split; [|split].
  - intros topic rate skewPercent w.
    unfold Producer.run, Pipeline.run_with, Go.Split.
    destruct (Pipeline.connect_error w); [reflexivity|].
    destruct (Go.div Pipeline.Second rate) as [d|]; [|reflexivity].
    destruct (d <=? 0)%Z; [reflexivity|].
    destruct (Pipeline.generation _ _ _ _ _) as [tr [m|]]; reflexivity.
  - intros topic rate shards w.
    unfold ProducerBalanced.run, Pipeline.run_with, Go.Split.
    destruct (Pipeline.connect_error w); [reflexivity|].
    destruct (Go.div Pipeline.Second rate) as [d|]; [|reflexivity].
    destruct (d <=? 0)%Z; [reflexivity|].
    destruct (Pipeline.generation _ _ _ _ _) as [tr [m|]]; reflexivity.
  - intros topic group workMs w. unfold Consumer.run, Go.Split.
    destruct (Consumer.group_error w); [reflexivity|].
    destruct (Consumer.first w); reflexivity.
Qed.

End SplitFacts.

(* ================================================================== *)
(** * Further properties: whole runs of the producers *)

Section RunFacts.
Import Sarama Pipeline.

Variable build : Z -> Z -> Rand.M (gameEvent * ProducerMessage).




(** The interval of a rate above a billion per second truncates to zero. *)
Lemma interval_of_excessive_rate (rate : Z) :
  1000000000 < rate -> Go.wrap64 (Z.quot Second rate) = 0.
Proof.
  intros Hr. unfold Second. rewrite Z.quot_small by lia. reflexivity.
Qed.

(** The three ways a run can go at startup. *)
Lemma run_with_connect_error (started brokers : string) (rate : Z) (w : world)
  (err : string) :
  connect_error w = Some err ->
  run_with build started brokers rate w
  = ([NewAsyncProducer (Go.Split brokers ","); Log INFO "completed"],
     Return (Some ("failed to create kafka producer: " ++ err)%string)).
Proof. intros Hc. unfold run_with. rewrite Hc. reflexivity. Qed.

Lemma run_with_invalid_rate (started brokers : string) (rate : Z) (w : world) :
  connect_error w = None -> ~ 0 < rate <= 1000000000 ->
  exists msg,
    run_with build started brokers rate w
    = ([NewAsyncProducer (Go.Split brokers ","); Log INFO started; Close;
        Log INFO "completed"], Crash msg).
Proof.
  intros Hc Hr. unfold run_with. rewrite Hc. unfold Go.div.
  destruct (rate =? 0) eqn:Hz; [eexists; reflexivity|].
  apply Z.eqb_neq in Hz.
  assert (Hd : Go.wrap64 (Z.quot Second rate) <= 0).
  { destruct (Z_lt_le_dec rate 0) as [Hneg | Hpos].
    - apply interval_of_negative_rate. exact Hneg.
    - rewrite interval_of_excessive_rate by lia. lia. }
  apply Z.leb_le in Hd. rewrite Hd. eexists. reflexivity.
Qed.

Lemma run_with_valid_rate (started brokers : string) (rate : Z) (w : world) :
  connect_error w = None -> 0 < rate <= 1000000000 ->
  let gen := generation build (ticks w) 0 (seed w)
               (mkInput (input_capacity w) []) in
  let up := [NewAsyncProducer (Go.Split brokers ","); Log INFO started;
             NewTicker (Z.quot Second rate); GoGeneration] in
  run_with build started brokers rate w
  = match snd gen with
    | Some msg => (up ++ fst gen, Crash msg)
    | None => (up ++ fst gen ++ shutdown w, Return None)
    end.
Proof.
  intros Hc Hr. cbv zeta. unfold run_with. rewrite Hc. unfold Go.div.
  destruct (rate =? 0) eqn:Hz; [apply Z.eqb_eq in Hz; lia|].
  pose proof (interval_of_valid_rate rate Hr) as Hd.
  assert (Hw : Go.wrap64 (Z.quot Second rate) = Z.quot Second rate).
  { apply wrap64_small. unfold Second in *.
    assert (0 <= Z.quot 1000000000 rate <= 1000000000).
    { split; [apply Z.quot_pos; lia|]. apply Z.quot_le_upper_bound; nia. }
    lia. }
  rewrite Hw in *.
  destruct (Z.quot Second rate <=? 0) eqn:Hle; [apply Z.leb_le in Hle; lia|].
  destruct (generation build (ticks w) 0 (seed w)
              (mkInput (input_capacity w) [])) as [tr [msg|]]; reflexivity.
Qed.

(** Startup of a producer: the generation task is launched exactly when the
    connection succeeds and the rate lies in (0, 10^9]; the exit status is 1
    exactly when the connection fails; a rate outside the range ends the
    process with the panic status before anything is offered. *)
Lemma run_with_startup (started brokers : string) (rate : Z) (w : world) :
  let p := exit_of (run_with build started brokers rate w) in
  (In GoGeneration (fst p)
   <-> connect_error w = None /\ 0 < rate <= 1000000000)
  /\ (snd p = 1 <-> connect_error w <> None)
  /\ (connect_error w = None -> ~ 0 < rate <= 1000000000 ->
      snd p = Go.panic_exit_code /\ offers (fst p) = []
      /\ List.length (filter Trace.is_Close (fst p)) = 1%nat).
Proof.
  cbv zeta. destruct (connect_error w) as [err|] eqn:Hc.
  - rewrite (run_with_connect_error started brokers rate w err Hc).
    cbn [exit_of fst snd app]. split; [|split].
    + cbn. intuition discriminate.
    + intuition discriminate.
    + intros Hn. discriminate.
  - assert (Hdec : 0 < rate <= 1000000000 \/ ~ 0 < rate <= 1000000000) by lia.
    destruct Hdec as [Hr | Hr].
    + rewrite (run_with_valid_rate started brokers rate w Hc Hr).
      destruct (snd (generation build (ticks w) 0 (seed w)
                       (mkInput (input_capacity w) []))) as [msg|];
        cbn [exit_of fst snd]; unfold Go.panic_exit_code;
        (split; [|split]).
      * split; [intros _; split; [reflexivity | exact Hr]|].
        intros _. cbn. tauto.
      * split; [discriminate | congruence].
      * tauto.
      * split; [intros _; split; [reflexivity | exact Hr]|].
        intros _. cbn. tauto.
      * split; [discriminate | congruence].
      * tauto.
    + destruct (run_with_invalid_rate started brokers rate w Hc Hr)
        as [msg ->].
      cbn [exit_of fst snd]. unfold Go.panic_exit_code. split; [|split].
      * cbn. intuition discriminate.
      * split; [discriminate | congruence].
      * intros _ _. repeat split.
Qed.


End RunFacts.

Section ChannelFacts.
Import Sarama Pipeline.

Variable build : Z -> Z -> Rand.M (gameEvent * ProducerMessage).

Lemma length_dequeue (n : nat) (ch : input) :
  List.length (buffered (dequeue n ch)) = (List.length (buffered ch) - n)%nat.
Proof. unfold dequeue. cbn [buffered]. apply length_skipn. Qed.

(** Accepted records fit in the room the channel has and the room the
    transport makes. *)
Lemma generation_accepted_bound (ts : list tick) :
  forall i r ch,
    (List.length (buffered ch) <= capacity ch)%nat ->
    (List.length (filter snd (offers (fst (generation build ts i r ch))))
     + List.length (buffered ch)
     <= capacity ch + Trace.total_drained ts)%nat.
Proof.
  induction ts as [|t ts IH]; intros i r ch Hinv.
  - cbn. lia.
  - cbn [generation Trace.total_drained]. unfold iteration, select_send.
    destruct (build i (now t) r) as [[[ev msg] r']|]; [|cbn; lia].
    pose proof (length_dequeue (drained t) ch) as Hd.
    destruct (full (dequeue (drained t) ch)) eqn:Hfull.
    + specialize (IH i r' (dequeue (drained t) ch)).
      destruct (generation build ts i r' (dequeue (drained t) ch))
        as [tr crashed].
      cbn [fst offers filter snd] in *. cbn [capacity dequeue] in IH. lia.
    + unfold full in Hfull. apply Nat.leb_gt in Hfull.
      specialize (IH (Go.wrap64 (i + 1)) r'
                    (enqueue msg (dequeue (drained t) ch))).
      destruct (generation build ts (Go.wrap64 (i + 1)) r'
                  (enqueue msg (dequeue (drained t) ch))) as [tr crashed].
      cbn [fst offers filter snd List.length] in *.
      unfold enqueue in IH. cbn [capacity buffered dequeue] in IH, Hfull.
      rewrite length_app in IH. cbn [List.length] in IH.
      rewrite length_skipn in IH, Hfull. lia.
Qed.

(** While the channel has room for every firing still to come, nothing is
    dropped. *)
Lemma generation_all_accepted (ts : list tick) :
  forall i r ch,
    (List.length (buffered ch) + List.length ts <= capacity ch)%nat ->
    forallb snd (offers (fst (generation build ts i r ch))) = true.
Proof.
  induction ts as [|t ts IH]; intros i r ch Hroom; [reflexivity|].
  cbn [generation]. unfold iteration, select_send.
  destruct (build i (now t) r) as [[[ev msg] r']|]; [|reflexivity].
  pose proof (length_dequeue (drained t) ch) as Hd.
  cbn [List.length] in Hroom.
  destruct (full (dequeue (drained t) ch)) eqn:Hfull.
  - unfold full in Hfull. apply Nat.leb_le in Hfull.
    rewrite Hd in Hfull. unfold dequeue in Hfull. cbn [capacity] in Hfull. lia.
  - specialize (IH (Go.wrap64 (i + 1)) r'
                  (enqueue msg (dequeue (drained t) ch))).
    destruct (generation build ts (Go.wrap64 (i + 1)) r'
                (enqueue msg (dequeue (drained t) ch))) as [tr crashed].
    cbn [fst offers forallb snd andb]. apply IH.
    unfold enqueue, dequeue. cbn [capacity buffered].
    rewrite length_app, length_skipn. cbn [List.length]. lia.
Qed.

Lemma run_with_accepted_bound (started brokers : string) (rate : Z) (w : world) :
  (List.length
     (accepted_ids (fst (exit_of (run_with build started brokers rate w))))
   <= input_capacity w + Trace.total_drained (ticks w))%nat.
Proof.
  unfold accepted_ids. rewrite length_map.
  destruct (run_with_offers build started brokers rate w) as [-> | ->].
  - pose proof (generation_accepted_bound (ticks w) 0 (seed w)
                  (mkInput (input_capacity w) []) ltac:(cbn; lia)) as Hb.
    cbn [buffered capacity List.length] in Hb. lia.
  - cbn. lia.
Qed.

Lemma run_with_all_accepted (started brokers : string) (rate : Z) (w : world) :
  (List.length (ticks w) <= input_capacity w)%nat ->
  forallb snd (offers (fst (exit_of (run_with build started brokers rate w))))
  = true.
Proof.
  intros Hroom.
  destruct (run_with_offers build started brokers rate w) as [-> | ->].
  - apply generation_all_accepted. cbn. lia.
  - reflexivity.
Qed.

End ChannelFacts.

Section ExtensionalFacts.
Import Sarama Pipeline.

(** Loop bodies that agree everywhere give the same loop and the same
    process. *)
Lemma generation_ext
  (b1 b2 : Z -> Z -> Rand.M (gameEvent * ProducerMessage)) :
  (forall i now r, b1 i now r = b2 i now r) ->
  forall ts i r ch, generation b1 ts i r ch = generation b2 ts i r ch.
Proof.
  intros Hext ts. induction ts as [|t ts IH]; intros i r ch; [reflexivity|].
  cbn [generation]. unfold iteration. rewrite Hext.
  destruct (b2 i (now t) r) as [[[ev msg] r']|]; [|reflexivity].
  destruct (select_send (dequeue (drained t) ch) msg i) as [[b ch'] i'].
  rewrite IH. reflexivity.
Qed.

Lemma run_with_ext
  (b1 b2 : Z -> Z -> Rand.M (gameEvent * ProducerMessage))
  (started brokers : string) (rate : Z) (w : world) :
  (forall i now r, b1 i now r = b2 i now r) ->
  run_with b1 started brokers rate w = run_with b2 started brokers rate w.
Proof.
  intros Hext. unfold run_with.
  rewrite (generation_ext b1 b2 Hext). reflexivity.
Qed.

(** The skewed loop body depends on the percentage only through the
    comparison with the draw. *)
Lemma producer_build_threshold (topic : string) (s1 s2 i now : Z) (r : Rand.t) :
  (Rand.peek 100 (Rand.advance r) <? s1)
  = (Rand.peek 100 (Rand.advance r) <? s2) ->
  Producer.build topic s1 i now r = Producer.build topic s2 i now r.
Proof.
  intros Heq. unfold Producer.build.
  rewrite !(bind_Intn_pos 200000) by lia.
  rewrite !(bind_Intn_pos 100) by lia.
  rewrite Heq. reflexivity.
Qed.

End ExtensionalFacts.

Section ProducerRuns.
Import Sarama Pipeline.
Local Open Scope Z_scope.



(** X6: startup of both producers.  The generation task is launched
    exactly when the connection succeeds and the rate lies in (0, 10^9]
    messages per second; the exit status is 1 exactly when the connection
    fails; with a connection, a rate outside that range (above 10^9 the
    interval truncates to zero) ends the process with the panic status,
    nothing offered and the producer closed once by the deferred call. *)
Theorem producers_startup :
  (forall opts w,
     let p := Producer.main (Some opts) w in
     (In GoGeneration (fst p)
      <-> connect_error w = None /\ 0 < Producer.Rate opts <= 1000000000)
     /\ (snd p = 1 <-> connect_error w <> None)
     /\ (connect_error w = None -> ~ 0 < Producer.Rate opts <= 1000000000 ->
         snd p = Go.panic_exit_code /\ offers (fst p) = []
         /\ List.length (filter Trace.is_Close (fst p)) = 1%nat))
  /\
  (forall opts w,
     let p := ProducerBalanced.main (Some opts) w in
     (In GoGeneration (fst p)
      <-> connect_error w = None /\ 0 < ProducerBalanced.Rate opts <= 1000000000)
     /\ (snd p = 1 <-> connect_error w <> None)
     /\ (connect_error w = None ->
         ~ 0 < ProducerBalanced.Rate opts <= 1000000000 ->
         snd p = Go.panic_exit_code /\ offers (fst p) = []
         /\ List.length (filter Trace.is_Close (fst p)) = 1%nat)).
Proof.
  split; intros opts w; cbv zeta;
    [unfold Producer.main, Producer.run
    | unfold ProducerBalanced.main, ProducerBalanced.run];
    apply run_with_startup.
Qed.

Lemma producers_startup_witness :
  snd (Producer.main
         (Some (Producer.mkOptions "localhost:29092" "game-events"
                  2000000000 95)) Scenario.world_ok)
  = Go.panic_exit_code.
Proof.
  exact (proj1 (proj2 (proj2 (proj1 producers_startup
           (Producer.mkOptions "localhost:29092" "game-events" 2000000000 95)
           Scenario.world_ok)) eq_refl ltac:(cbn; lia))).
Defined.





(** X9: with a connection and a rate in (0, 10^9], the ticker of either
    producer is created with the whole number d of nanoseconds for which
    d * rate <= 10^9 < (d + 1) * rate, the truncated quotient of one second
    by the rate. *)
Theorem ticker_interval :
  (forall opts w,
     connect_error w = None -> 0 < Producer.Rate opts <= 1000000000 ->
     exists d, In (NewTicker d) (fst (Producer.main (Some opts) w))
               /\ d * Producer.Rate opts <= Second
                  < (d + 1) * Producer.Rate opts)
  /\
  (forall opts w,
     connect_error w = None -> 0 < ProducerBalanced.Rate opts <= 1000000000 ->
     exists d, In (NewTicker d) (fst (ProducerBalanced.main (Some opts) w))
               /\ d * ProducerBalanced.Rate opts <= Second
                  < (d + 1) * ProducerBalanced.Rate opts).
Proof.
  assert (Hq : forall rate, 0 < rate <= 1000000000 ->
            Z.quot Second rate * rate <= Second
            < (Z.quot Second rate + 1) * rate).
  { intros rate Hr. unfold Second.
    rewrite Z.quot_div_nonneg by lia.
    pose proof (Z.div_mod 1000000000 rate ltac:(lia)) as Hdm.
    pose proof (Z.mod_pos_bound 1000000000 rate ltac:(lia)) as Hm. nia. }
  assert (Hin : forall build started brokers rate w,
            connect_error w = None -> 0 < rate <= 1000000000 ->
            In (NewTicker (Z.quot Second rate))
              (fst (exit_of (run_with build started brokers rate w)))).
  { intros build started brokers rate w Hc Hr.
    rewrite (run_with_valid_rate build started brokers rate w Hc Hr).
    destruct (snd (generation build (ticks w) 0 (seed w)
                     (mkInput (input_capacity w) []))) as [m|];
      cbn [exit_of fst]; cbn; tauto. }
  split; intros opts w Hc Hr.
  - exists (Z.quot Second (Producer.Rate opts)). split; [|apply Hq; exact Hr].
    unfold Producer.main, Producer.run. apply Hin; assumption.
  - exists (Z.quot Second (ProducerBalanced.Rate opts)).
    split; [|apply Hq; exact Hr].
    unfold ProducerBalanced.main, ProducerBalanced.run. apply Hin; assumption.
Qed.

Lemma ticker_interval_witness :
  exists d, In (NewTicker d)
              (fst (Producer.main (Some Scenario.producer_opts)
                      Scenario.world_ok))
            /\ d * 400 <= Second < (d + 1) * 400.
Proof.
  exact (proj1 ticker_interval Scenario.producer_opts Scenario.world_ok
           eq_refl ltac:(cbn; lia)).
Defined.

(** X10: the skew percentage is not range-checked and saturates: any value
    at or below 0 makes the producer run exactly as with 0, and any value
    at or above 100 exactly as with 100, pass by pass and as a whole
    process. *)
Theorem skew_percent_saturates :
  forall s : Z,
    let clamp := Z.max 0 (Z.min 100 s) in
    (forall topic i now r,
        Producer.build topic s i now r = Producer.build topic clamp i now r)
    /\ (forall brokers topic rate w,
          Producer.main (Some (Producer.mkOptions brokers topic rate s)) w
          = Producer.main (Some (Producer.mkOptions brokers topic rate clamp)) w).
Proof.
  intros s clamp.
  assert (Hb : forall topic i now r,
            Producer.build topic s i now r
            = Producer.build topic clamp i now r).
  { intros topic i now r. apply producer_build_threshold.
    pose proof (peek_range 100 (Rand.advance r) ltac:(lia)) as Hd.
    unfold clamp.
    destruct (Rand.peek 100 (Rand.advance r) <? s) eqn:H1;
      destruct (Rand.peek 100 (Rand.advance r) <? Z.max 0 (Z.min 100 s)) eqn:H2;
      try reflexivity;
      repeat match goal with
             | H : (_ <? _) = true |- _ => apply Z.ltb_lt in H
             | H : (_ <? _) = false |- _ => apply Z.ltb_ge in H
             end; lia. }
  split; [exact Hb|].
  intros brokers topic rate w. unfold Producer.main, Producer.run.
  cbn [Producer.KafkaBrokers Producer.OptTopic Producer.Rate
       Producer.SkewPercent].
  rewrite (run_with_ext (Producer.build topic s) (Producer.build topic clamp)
             "producer started" brokers rate w (Hb topic)).
  reflexivity.
Qed.

(** X11: in any run of either producer the number of records the transport
    accepted is at most the capacity of its input channel plus the number
    of records it took off the channel during the run: what exceeds that is
    dropped, never queued elsewhere. *)
Theorem accepted_bounded_by_capacity :
  (forall opts w,
     (List.length (accepted_ids (fst (Producer.main (Some opts) w)))
      <= input_capacity w + Trace.total_drained (ticks w))%nat)
  /\
  (forall opts w,
     (List.length (accepted_ids (fst (ProducerBalanced.main (Some opts) w)))
      <= input_capacity w + Trace.total_drained (ticks w))%nat).
Proof.
  split; intros opts w;
    [unfold Producer.main, Producer.run
    | unfold ProducerBalanced.main, ProducerBalanced.run];
    apply run_with_accepted_bound.
Qed.

(** X12: when the input channel has room for as many records as there are
    firings of the ticker, no record of the run is dropped. *)
Theorem nothing_dropped_with_room :
  (forall opts w,
     (List.length (ticks w) <= input_capacity w)%nat ->
     forallb snd (offers (fst (Producer.main (Some opts) w))) = true)
  /\
  (forall opts w,
     (List.length (ticks w) <= input_capacity w)%nat ->
     forallb snd (offers (fst (ProducerBalanced.main (Some opts) w))) = true).
Proof.
  split; intros opts w Hroom;
    [unfold Producer.main, Producer.run
    | unfold ProducerBalanced.main, ProducerBalanced.run];
    apply run_with_all_accepted; exact Hroom.
Qed.

Lemma nothing_dropped_with_room_witness :
  forallb snd
    (offers (fst (Producer.main (Some Scenario.producer_opts)
                    (mkWorld None Scenario.source 3 Scenario.three_ticks true))))
  = true.
Proof.
  exact (proj1 nothing_dropped_with_room Scenario.producer_opts
           (mkWorld None Scenario.source 3 Scenario.three_ticks true)
           ltac:(cbn; lia)).
Defined.

End ProducerRuns.

Section EventFacts.
Import Sarama Pipeline.
Local Open Scope Z_scope.

Lemma game_id_render (g : Z) :
  0 <= g -> Fmt.Sprintf "game-%d" [Fmt.Int g] = ("game-" ++ Fmt.itoa g)%string.
Proof.
  intros Hg. unfold Fmt.Sprintf.
  with_strategy opaque [Fmt.fmtInteger] simpl.
  rewrite fmtInteger_plain by exact Hg. rewrite append_nil_r. reflexivity.
Qed.

Lemma table_id_render (t : Z) :
  0 <= t -> Fmt.Sprintf "table-%d" [Fmt.Int t] = ("table-" ++ Fmt.itoa t)%string.
Proof.
  intros Ht. unfold Fmt.Sprintf.
  with_strategy opaque [Fmt.fmtInteger] simpl.
  rewrite fmtInteger_plain by exact Ht. rewrite append_nil_r. reflexivity.
Qed.

Lemma catalogued_intro (i now g a tb n : Z) (et pid : string) :
  0 <= g < 50 -> In et event_types -> 0 <= tb < 100 -> 0 <= n < 200000 ->
  pid = Fmt.Sprintf "player-%06d" [Fmt.Int n] ->
  Trace.catalogued
    (mkGameEvent i pid (Fmt.Sprintf "game-%d" [Fmt.Int g]) et (10 + a)
       (Fmt.Sprintf "table-%d" [Fmt.Int tb]) now).
Proof.
  intros Hg Het Htb Hn ->. unfold Trace.catalogued.
  cbv beta iota delta [EventType GameID TableID PlayerID].
  split; [exact Het|].
  split; [exists g; split; [exact Hg | apply game_id_render; lia]|].
  split; [exists tb; split; [exact Htb | apply table_id_render; lia]|].
  split; [exists n; split; [exact Hn | apply player_id_render; lia]|].
  apply player_id_length. lia.
Qed.

Lemma producer_build_catalogued (topic : string) (skewPercent i now : Z)
  (r : Rand.t) (ev : gameEvent) (msg : ProducerMessage) (r' : Rand.t) :
  Producer.build topic skewPercent i now r = Go.Ok ((ev, msg), r') ->
  Trace.catalogued ev /\ Topic msg = topic /\ Key msg = PlayerID ev.
Proof.
  intros Hb.
  destruct (producer_build_spec topic skewPercent i now r)
    as (g & et & a & tb & r0 & Hg & Het & Ha & Htb & Hspec).
  cbv zeta in Hspec. rewrite Hspec in Hb.
  match type of Hb with
  | Go.Ok (?e, ?m, _) = _ =>
      assert (He : ev = e) by congruence;
      assert (Hm : msg = m) by congruence
  end.
  subst ev msg. split; [|split; reflexivity].
  pose proof (peek_range 200000 r ltac:(lia)) as Hn.
  destruct (Rand.peek 100 (Rand.advance r) <? skewPercent).
  - apply (catalogued_intro i now g a tb 1); try assumption; try lia.
    reflexivity.
  - apply (catalogued_intro i now g a tb (Rand.peek 200000 r));
      try assumption; reflexivity.
Qed.

Lemma balanced_build_catalogued (topic : string) (shards i now : Z)
  (r : Rand.t) (ev : gameEvent) (msg : ProducerMessage) (r' : Rand.t) :
  ProducerBalanced.build topic shards i now r = Go.Ok ((ev, msg), r') ->
  Trace.catalogued ev /\ Topic msg = topic
  /\ exists shard, 0 <= shard < shards
                   /\ Key msg = (PlayerID ev ++ "#shard=" ++ Fmt.itoa shard)%string.
Proof.
  intros Hb. destruct (Z_lt_le_dec 0 shards) as [Hs | Hs].
  2:{ rewrite balanced_build_panics in Hb by exact Hs. discriminate. }
  destruct (balanced_build_spec topic shards i now r Hs)
    as (g & et & a & tb & shard & r0 & Hg & Het & Ha & Htb & Hsh & Hspec).
  cbv zeta in Hspec. rewrite Hspec in Hb.
  match type of Hb with
  | Go.Ok (?e, ?m, _) = _ =>
      assert (He : ev = e) by congruence;
      assert (Hm : msg = m) by congruence
  end.
  subst ev msg. split; [|split; [reflexivity|]].
  - pose proof (peek_range 200000 (Rand.advance r) ltac:(lia)) as Hn.
    destruct (95 <=? Rand.peek 100 r).
    + apply (catalogued_intro i now g a tb (Rand.peek 200000 (Rand.advance r)));
        try assumption; reflexivity.
    + apply (catalogued_intro i now g a tb 1); try assumption; try lia.
      reflexivity.
  - exists shard. split; [exact Hsh|].
    cbv beta iota delta [Key PlayerID]. apply shard_key_render. lia.
Qed.

(** X13: every event either producer offers in any run has an event type
    of the closed set bet_placed, hand_finished, chips_added, a game
    identifier game-N with N below 50, a table identifier table-N with N
    below 100, and a thirteen-character player identifier player-NNNNNN of
    a number below 200000 (the VIP's being that of number 1). *)
Theorem events_catalogued :
  (forall opts w ev msg b,
     In (Offered ev msg b) (fst (Producer.main (Some opts) w)) ->
     Trace.catalogued ev)
  /\
  (forall opts w ev msg b,
     In (Offered ev msg b) (fst (ProducerBalanced.main (Some opts) w)) ->
     Trace.catalogued ev).
Proof.
  split; intros opts w ev msg b.
  - unfold Producer.main, Producer.run.
    apply (run_with_offered _ (fun ev _ => Trace.catalogued ev)).
    intros i now r ev0 msg0 r' Hb.
    eapply producer_build_catalogued. exact Hb.
  - unfold ProducerBalanced.main, ProducerBalanced.run.
    apply (run_with_offered _ (fun ev _ => Trace.catalogued ev)).
    intros i now r ev0 msg0 r' Hb.
    eapply balanced_build_catalogued. exact Hb.
Qed.

Lemma events_catalogued_witness :
  exists ev msg b,
    In (Offered ev msg b)
      (fst (Producer.main (Some Scenario.producer_opts) Scenario.world_ok))
    /\ Trace.catalogued ev.
Proof.
  assert (Hin : exists ev msg b,
             In (Offered ev msg b)
               (fst (Producer.main (Some Scenario.producer_opts)
                       Scenario.world_ok))).
  { vm_compute. eexists _, _, _.
    right. right. right. right. right. left. reflexivity. }
  destruct Hin as (ev & msg & b & Hin).
  exists ev, msg, b. split; [exact Hin|].
  exact (proj1 events_catalogued _ _ _ _ _ Hin).
Defined.

(** X14: every record either producer offers in any run is addressed to
    the configured topic; the skewed producer keys it by the event's player
    identifier, the balanced producer by that identifier, the literal
    #shard= and a shard index of [0, shards). *)
Theorem records_addressed :
  (forall opts w ev msg b,
     In (Offered ev msg b) (fst (Producer.main (Some opts) w)) ->
     Topic msg = Producer.OptTopic opts /\ Key msg = PlayerID ev)
  /\
  (forall opts w ev msg b,
     In (Offered ev msg b) (fst (ProducerBalanced.main (Some opts) w)) ->
     Topic msg = ProducerBalanced.OptTopic opts
     /\ exists shard,
          0 <= shard < ProducerBalanced.Shards opts
          /\ Key msg = (PlayerID ev ++ "#shard=" ++ Fmt.itoa shard)%string).
Proof.
  split; intros opts w ev msg b.
  - unfold Producer.main, Producer.run.
    apply (run_with_offered _
             (fun ev msg => Topic msg = Producer.OptTopic opts
                            /\ Key msg = PlayerID ev)).
    intros i now r ev0 msg0 r' Hb.
    eapply producer_build_catalogued. exact Hb.
  - unfold ProducerBalanced.main, ProducerBalanced.run.
    apply (run_with_offered _
             (fun ev msg =>
                Topic msg = ProducerBalanced.OptTopic opts
                /\ exists shard,
                     0 <= shard < ProducerBalanced.Shards opts
                     /\ Key msg
                        = (PlayerID ev ++ "#shard=" ++ Fmt.itoa shard)%string)).
    intros i now r ev0 msg0 r' Hb.
    eapply balanced_build_catalogued. exact Hb.
Qed.

Lemma records_addressed_witness :
  exists ev msg b,
    In (Offered ev msg b)
      (fst (ProducerBalanced.main (Some Scenario.balanced_opts)
              Scenario.world_ok))
    /\ Topic msg = "game-events"%string.
Proof.
  assert (Hin : exists ev msg b,
             In (Offered ev msg b)
               (fst (ProducerBalanced.main (Some Scenario.balanced_opts)
                       Scenario.world_ok))).
  { vm_compute. eexists _, _, _.
    right. right. right. right. right. left. reflexivity. }
  destruct Hin as (ev & msg & b & Hin).
  exists ev, msg, b. split; [exact Hin|].
  exact (proj1 (proj2 records_addressed _ _ _ _ _ Hin)).
Defined.

End EventFacts.

(* ================================================================== *)
(** * Further properties: the consumer *)

Section ConsumerRuns.
Import Sarama Consumer.
Local Open Scope Z_scope.

Lemma loop_app (h : handler) (p : Z) (ms1 ms2 : list ConsumerMessage) :
  ConsumeClaim_loop h p (ms1 ++ ms2)
  = ConsumeClaim_loop h p ms1 ++ ConsumeClaim_loop h p ms2.
Proof.
  induction ms1 as [|m ms1 IH]; [reflexivity|].
  cbn [app ConsumeClaim_loop]. rewrite IH. apply app_assoc.
Qed.

(** X15: the consumption loop keeps nothing between records: what it does
    on a stream delivered in two parts is what it does on the first part
    followed by what it does on the second, so a record delivered again is
    slept on, sampled and marked again exactly as the first time. *)
Theorem consume_claim_composes (h : handler) (p : Z) :
  (forall ms1 ms2,
      fst (ConsumeClaim h p (ms1 ++ ms2))
      = fst (ConsumeClaim h p ms1) ++ fst (ConsumeClaim h p ms2))
  /\ (forall ms1 m ms2,
        fst (ConsumeClaim h p (ms1 ++ m :: m :: ms2))
        = fst (ConsumeClaim h p ms1) ++ process h p m ++ process h p m
          ++ fst (ConsumeClaim h p ms2)).
Proof.
  unfold ConsumeClaim. cbn [fst]. split.
  - intros ms1 ms2. apply loop_app.
  - intros ms1 m ms2. rewrite loop_app. reflexivity.
Qed.





(** X18: exit status and shutdown of the consumer.  The status is 1 exactly
    when the consumer group cannot be created and 0 otherwise.  Whatever
    the first return of Consume is, nil included, it is logged as a consume
    error and ends the process, the client closed once by the deferred
    call; on a signal the client is closed twice, a failing close is logged
    (and only then) and the status is still 0; every run ends by logging its
    completion, followed on status 1 by the error. *)
Theorem consumer_exit_status (opts : options) (w : world) :
  let p := main (Some opts) w in
  (snd p = 1 <-> group_error w <> None)
  /\ (snd p = 0 <-> group_error w = None)
  /\ (group_error w = None ->
      forall err, first w = ConsumeReturned err ->
        In (Log ERROR "consume error") (fst p)
        /\ List.length (filter ConsumerTrace.is_Close (fst p)) = 1%nat)
  /\ (group_error w = None ->
      forall ce, first w = Signalled ce ->
        List.length (filter ConsumerTrace.is_Close (fst p)) = 2%nat
        /\ (In (Log ERROR "failed to close consumer") (fst p) <-> ce <> None)
        /\ ~ In (Log ERROR "consume error") (fst p))
  /\ (group_error w = None -> last (fst p) Close = Log INFO "completed")
  /\ (group_error w <> None ->
      fst p = [NewConsumerGroup (Go.Split (KafkaBrokers opts) ",") (Group opts);
               Log INFO "completed"; Log ERROR "error"]).
Proof.
  cbv zeta. unfold main, run.
  destruct (group_error w) as [e|] eqn:Hg.
  - cbn [fst snd app].
    repeat split; try congruence; try discriminate; try (intros; congruence).
  - destruct (first w) as [err | ce] eqn:Hf; cbn [fst snd].
    + split; [split; [discriminate | congruence]|].
      split; [tauto|].
      split; [intros _ err' _; split; [cbn; tauto | reflexivity]|].
      split; [intros _ ce' Hce; discriminate|].
      split; [intros _; reflexivity | congruence].
    + split; [split; [discriminate | congruence]|].
      split; [tauto|].
      split; [intros _ err' Herr; discriminate|].
      split.
      { intros _ ce' Hce. injection Hce as <-.
        destruct ce as [c|]; cbn; repeat split; try congruence;
          try tauto; intuition discriminate. }
      split; [intros _; destruct ce; reflexivity | congruence].
Qed.

Lemma consumer_exit_status_witness :
  In (Consumer.Log Consumer.ERROR "consume error")
    (fst (main (Some Scenario.consumer_opts)
            (mkWorld None (ConsumeReturned None)))).
Proof.
  exact (proj1 (proj1 (proj2 (proj2 (consumer_exit_status Scenario.consumer_opts
           (mkWorld None (ConsumeReturned None)))))
           eq_refl None eq_refl)).
Defined.

End ConsumerRuns.

Section PayloadFacts.
Import Sarama Pipeline.
Local Open Scope string_scope.

(** A run of digits is fixed by any text that continues it with a
    non-digit. *)
Lemma digits_prefix_unique (s1 : string) :
  forall s2 c1 c2 r1 r2,
    Strings.all_digits s1 = true -> Strings.all_digits s2 = true ->
    Fmt.is_digit c1 = false -> Fmt.is_digit c2 = false ->
    s1 ++ String c1 r1 = s2 ++ String c2 r2 -> s1 = s2.
Proof.
  induction s1 as [|a s1 IH]; intros s2 c1 c2 r1 r2 H1 H2 Hc1 Hc2 Heq.
  - destruct s2 as [|b s2]; [reflexivity|].
    cbn [append] in Heq. injection Heq as <- _.
    cbn [Strings.all_digits] in H2. rewrite Hc1 in H2. discriminate.
  - destruct s2 as [|b s2].
    + cbn [append] in Heq. injection Heq as -> _.
      cbn [Strings.all_digits] in H1. rewrite Hc2 in H1. discriminate.
    + cbn [append] in Heq. injection Heq as <- Heq.
      cbn [Strings.all_digits] in H1, H2.
      apply andb_prop in H1. apply andb_prop in H2.
      f_equal. apply (IH s2 c1 c2 r1 r2);
        [apply H1 | apply H2 | exact Hc1 | exact Hc2 | exact Heq].
Qed.

(** The payload opens with the id field. *)
Lemma encode_head (ev : gameEvent) :
  exists tail,
    encode ev
    = "{" ++ q "id" ++ ":" ++ Fmt.fmtInteger false None (ID ev)
          ++ String "," tail.
Proof.
  destruct ev as [id pid gid et am tb ts].
  unfold encode, Fmt.Sprintf.
  cbv beta iota delta [ID PlayerID GameID EventType Amount TableID TS].
  let f := eval vm_compute in payload_format in change payload_format with f.
  with_strategy opaque [Fmt.fmtInteger] simpl.
  eexists. reflexivity.
Qed.

(** X19: the payload determines the sequence number: two events whose ids
    are non-negative (as every id of the counter is) and whose payloads are
    equal have the same id, so records with distinct ids never share a
    payload, whatever the other fields are. *)
Theorem payload_determines_id (ev1 ev2 : gameEvent) :
  (0 <= ID ev1 < 2 ^ 63)%Z -> (0 <= ID ev2 < 2 ^ 63)%Z ->
  encode ev1 = encode ev2 -> ID ev1 = ID ev2.
Proof.
  intros H1 H2 Heq.
  destruct (encode_head ev1) as [t1 E1]. destruct (encode_head ev2) as [t2 E2].
  rewrite E1, E2 in Heq.
  rewrite !fmtInteger_plain in Heq by lia.
  do 3 apply append_cancel_l in Heq.
  apply digits_prefix_unique in Heq; try reflexivity.
  - apply itoa_injective; [lia | lia | exact Heq].
  - apply (itoa_shape (ID ev1) 20); lia.
  - apply (itoa_shape (ID ev2) 20); lia.
Qed.

Lemma payload_determines_id_witness :
  String.eqb
    (encode (mkGameEvent 7 vip "game-7" "bet_placed" 155 "table-45"
               1700000000000))
    (encode (mkGameEvent 8 vip "game-7" "bet_placed" 155 "table-45"
               1700000000000))
  = false.
Proof.
  apply String.eqb_neq. intros Heq.
  pose proof (payload_determines_id
                (mkGameEvent 7 vip "game-7" "bet_placed" 155 "table-45"
                   1700000000000)
                (mkGameEvent 8 vip "game-7" "bet_placed" 155 "table-45"
                   1700000000000)
                ltac:(cbn; lia) ltac:(cbn; lia) Heq) as Hid.
  discriminate Hid.
Defined.

End PayloadFacts.

Section SamplingWindow.
Import Sarama Consumer.
Local Open Scope Z_scope.

Lemma ceil_step (x : Z) :
  (x + 1 + 499) / 500 - (x + 499) / 500 = if x mod 500 =? 0 then 1 else 0.
Proof.
  destruct (x mod 500 =? 0) eqn:Hm.
  - apply Z.eqb_eq in Hm. Z.to_euclidean_division_equations. lia.
  - apply Z.eqb_neq in Hm. Z.to_euclidean_division_equations. lia.
Qed.

Lemma count_multiples (start : Z) (n : nat) :
  Z.of_nat (List.length
              (filter (fun o => o mod 500 =? 0)
                 (map (fun k => start + Z.of_nat k) (seq 0 n))))
  = (start + Z.of_nat n + 499) / 500 - (start + 499) / 500.
Proof.
  induction n as [|n IH].
  - cbn [seq map filter List.length Z.of_nat]. rewrite Z.add_0_r. lia.
  - rewrite seq_S, map_app, filter_app, length_app, Nat2Z.inj_add, IH.
    cbn [Nat.add map filter].
    pose proof (ceil_step (start + Z.of_nat n)) as Hs.
    replace (start + Z.of_nat (S n) + 499)
      with (start + Z.of_nat n + 1 + 499) by lia.
    destruct ((start + Z.of_nat n) mod 500 =? 0); cbn [List.length]; lia.
Qed.

Lemma filter_map_length {A B} (f : A -> B) (P : B -> bool) (l : list A) :
  List.length (filter (fun a => P (f a)) l)
  = List.length (filter P (map f l)).
Proof.
  induction l as [|a l IH]; [reflexivity|].
  cbn [map filter]. destruct (P (f a)); cbn [List.length]; rewrite IH;
    reflexivity.
Qed.

(** X20: on records with consecutive offsets start, start+1, ... the loop
    emits as many samples as there are multiples of 500 among them; in
    particular every window of 500 consecutive offsets yields exactly one
    sample, wherever it starts. *)
Theorem sampling_cadence (h : handler) (p : Z) (msgs : list ConsumerMessage)
  (start : Z) :
  map Offset msgs
  = map (fun k => start + Z.of_nat k) (seq 0 (List.length msgs)) ->
  Z.of_nat (List.length (samples (fst (ConsumeClaim h p msgs))))
  = (start + Z.of_nat (List.length msgs) + 499) / 500 - (start + 499) / 500
  /\ (List.length msgs = 500%nat ->
      List.length (samples (fst (ConsumeClaim h p msgs))) = 1%nat).
Proof.
  intros Hoff.
  assert (Hcount :
    Z.of_nat (List.length (samples (fst (ConsumeClaim h p msgs))))
    = (start + Z.of_nat (List.length msgs) + 499) / 500 - (start + 499) / 500).
  { unfold ConsumeClaim. cbn [fst]. rewrite loop_samples, length_map.
    unfold sampling_interval.
    rewrite (filter_map_length Offset (fun o => o mod 500 =? 0) msgs), Hoff.
    apply count_multiples. }
  split; [exact Hcount|].
  intros Hlen. rewrite Hlen in Hcount.
  replace (start + Z.of_nat 500 + 499) with (start + 499 + 1 * 500) in Hcount
    by lia.
  rewrite Z.div_add in Hcount by lia. lia.
Qed.

Lemma sampling_cadence_witness :
  Z.of_nat (List.length
              (samples (fst (ConsumeClaim (mkHandler 2000000) 2
                               [mkConsumerMessage "player-000001" "v" 2 499;
                                mkConsumerMessage "player-000002" "v" 2 500;
                                mkConsumerMessage "player-000001" "v" 2 501]))))
  = 1.
Proof.
  exact (proj1 (sampling_cadence (mkHandler 2000000) 2
                  [mkConsumerMessage "player-000001" "v" 2 499;
                   mkConsumerMessage "player-000002" "v" 2 500;
                   mkConsumerMessage "player-000001" "v" 2 501] 499 eq_refl)).
Defined.

End SamplingWindow.

Section WorstCase.
Import Sarama Pipeline.
Local Open Scope Z_scope.

(** X21: with a skew percentage of 100 or more every record of a run of the
    skewed producer is keyed by the VIP identifier, so all routing keys of
    the run are identical; with 0 or less every record is keyed by the
    identifier of a drawn number. *)
Theorem full_skew_single_key :
  (forall opts w ev msg b,
     100 <= Producer.SkewPercent opts ->
     In (Offered ev msg b) (fst (Producer.main (Some opts) w)) ->
     Key msg = vip /\ PlayerID ev = vip)
  /\
  (forall opts w ev msg b,
     Producer.SkewPercent opts <= 0 ->
     In (Offered ev msg b) (fst (Producer.main (Some opts) w)) ->
     exists n, 0 <= n < 200000
               /\ Key msg = Fmt.Sprintf "player-%06d" [Fmt.Int n]).
Proof.
  split; intros opts w ev msg b Hs; unfold Producer.main, Producer.run.
  - apply (run_with_offered _ (fun ev msg => Key msg = vip /\ PlayerID ev = vip)).
    intros i now r ev0 msg0 r' Hb.
    destruct (producer_build_spec (Producer.OptTopic opts)
                (Producer.SkewPercent opts) i now r)
      as (g & et & a & tb & r0 & _ & _ & _ & _ & Hspec).
    cbv zeta in Hspec. rewrite Hspec in Hb.
    match type of Hb with
    | Go.Ok (?e, ?m, _) = _ =>
        assert (He : ev0 = e) by congruence;
        assert (Hm : msg0 = m) by congruence
    end.
    subst ev0 msg0. cbv beta iota delta [Key PlayerID].
    pose proof (peek_range 100 (Rand.advance r) ltac:(lia)) as Hd.
    destruct (Rand.peek 100 (Rand.advance r) <? Producer.SkewPercent opts)
      eqn:Hlt; [split; reflexivity | apply Z.ltb_ge in Hlt; lia].
  - apply (run_with_offered _
             (fun ev msg => exists n, 0 <= n < 200000
                /\ Key msg = Fmt.Sprintf "player-%06d" [Fmt.Int n])).
    intros i now r ev0 msg0 r' Hb.
    destruct (producer_build_spec (Producer.OptTopic opts)
                (Producer.SkewPercent opts) i now r)
      as (g & et & a & tb & r0 & _ & _ & _ & _ & Hspec).
    cbv zeta in Hspec. rewrite Hspec in Hb.
    match type of Hb with
    | Go.Ok (?e, ?m, _) = _ =>
        assert (Hm : msg0 = m) by congruence
    end.
    subst msg0. cbv beta iota delta [Key].
    pose proof (peek_range 100 (Rand.advance r) ltac:(lia)) as Hd.
    exists (Rand.peek 200000 r). split; [apply peek_range; lia|].
    destruct (Rand.peek 100 (Rand.advance r) <? Producer.SkewPercent opts)
      eqn:Hlt; [apply Z.ltb_lt in Hlt; lia | reflexivity].
Qed.

Lemma full_skew_single_key_witness :
  exists ev msg b,
    In (Offered ev msg b)
      (fst (Producer.main
              (Some (Producer.mkOptions "localhost:29092" "game-events" 400 100))
              Scenario.world_ok))
    /\ Key msg = vip.
Proof.
  assert (Hin : exists ev msg b,
             In (Offered ev msg b)
               (fst (Producer.main
                       (Some (Producer.mkOptions "localhost:29092"
                                "game-events" 400 100))
                       Scenario.world_ok))).
  { vm_compute. eexists _, _, _.
    right. right. right. right. right. left. reflexivity. }
  destruct Hin as (ev & msg & b & Hin).
  exists ev, msg, b. split; [exact Hin|].
  exact (proj1 (proj1 full_skew_single_key
                  (Producer.mkOptions "localhost:29092" "game-events" 400 100)
                  Scenario.world_ok ev msg b ltac:(cbn; lia) Hin)).
Defined.

End WorstCase.
